(** * vmbuild: assembling a bootable disk image

    A shallow embedding of [vmbuild/vmbuild.cpp] (IncludeOS).  The tool
    loads a 512-byte boot sector and a service ELF binary into one
    sector-aligned buffer, checks the binary's format, patches two
    4-byte fields of the boot sector and writes the buffer to
    [<service>.img].

    Conventions of the embedding:
    - a [char] is a [Byte.byte]; the [vector<char>] disk is a [list byte]
      indexed from 0, an access outside of it is undefined behaviour and
      ends the run with the outcome [Fault];
    - the machine integers ([off_t], [intmax_t], [int], [uint32_t]) are
      [Z] values with the wrap-around and the overflow written out;
      multi-byte fields are little-endian, as on the x86 host and target;
    - the file system is a finite map from paths to files; what [stat]
      reports and what a read delivers are kept apart, so that partial
      reads can be expressed; the allocation of the disk and the output
      side have their own oracles, for a failing allocation, a failing
      [fopen] and a short [fwrite];
    - [assert] is the active assertion of a build without [NDEBUG];
      [std::terminate], a failed [assert] and an uncaught exception all
      end the run with the outcome [Terminate];
    - the [INFO]/[printf] diagnostics are not part of the model, apart
      from the reads of the buffer they make in verbose mode and from
      what they may do to [errno]. *)

From Stdlib Require Import ZArith Lia.
From Stdlib Require Import Strings.Byte Strings.Ascii Strings.String.
From stdpp Require Import gmap strings list.

Open Scope Z_scope.

(** ** Bytes and little-endian fields *)

Definition byte_to_Z (b : byte) : Z := Z.of_N (Byte.to_N b).

(** Conversion of an integer to [char]: the low eight bits. *)
Definition byte_of_Z (z : Z) : byte :=
  match Byte.of_N (Z.to_N (z mod 256)) with
  | Some b => b
  | None => x00
  end.

(** The value of a little-endian byte string. *)
Fixpoint le_val (bs : list byte) : Z :=
  match bs with
  | [] => 0
  | b :: bs' => byte_to_Z b + 256 * le_val bs'
  end.

(** The [n] low bytes of [v], least significant first. *)
Fixpoint le_bytes (n : nat) (v : Z) : list byte :=
  match n with
  | O => []
  | S n' => byte_of_Z v :: le_bytes n' (v / 256)
  end.

(** Reading an [n]-byte little-endian field through a pointer at offset
    [off]; [None] when the field is not inside the buffer. *)
Definition load (n : nat) (off : nat) (buf : list byte) : option Z :=
  let bs := take n (drop off buf) in
  if decide (length bs = n) then Some (le_val bs) else None.

(** Writing an [n]-byte little-endian field through a pointer. *)
Definition store (n : nat) (off : nat) (v : Z) (buf : list byte) : list byte :=
  list_inserts off (le_bytes n v) buf.

(** ** Constants of the source and of its headers *)

Definition SECT_SIZE : Z := 512.
Definition SECT_SIZE_ERR : Z := 666.
Definition DISK_SIZE_ERR : Z := 999.
Definition EXIT_SUCCESS : Z := 0.
Definition EXIT_FAILURE : Z := 1.

Definition bootvar_binary_size : nat := 4.
Definition bootvar_binary_location : nat := 8.

Definition INT_MAX : Z := 2 ^ 31 - 1.
Definition INTMAX_MAX : Z := 2 ^ 63 - 1.

(** Modelled from the spec: the identification constants of [elf.h]
    (the header is not among the sources).  The magic sequence is
    0x7f 'E' 'L' 'F', the class byte follows it, class 1 is 32-bit and
    class 2 is 64-bit. *)
Definition EI_MAG0 : nat := 0.
Definition EI_MAG1 : nat := 1.
Definition EI_MAG2 : nat := 2.
Definition EI_MAG3 : nat := 3.
Definition EI_CLASS : nat := 4.
Definition ELFMAG0 : byte := x7f.
Definition ELFMAG1 : byte := x45.
Definition ELFMAG2 : byte := x4c.
Definition ELFMAG3 : byte := x46.
Definition ELFCLASS32 : byte := x01.
Definition ELFCLASS64 : byte := x02.

(** Modelled from the spec: [Elf64_Ehdr] of [elf.h]; the 8-byte entry
    point [e_entry] follows the 16 identification bytes, the 2-byte type,
    the 2-byte machine and the 4-byte version. *)
Definition Elf64_e_entry_off : nat := 24.

(** Modelled from the spec: [multiboot.h] is not among the sources.  The
    header has eight 4-byte unsigned fields at offsets 0, 4, ..., 28, the
    first three being [magic], [flags] and [checksum], and its magic is
    0x1BADB002. *)
Definition MULTIBOOT_HEADER_MAGIC : Z := 0x1BADB002.

(** ** Outcomes of a run *)

(** The ways the process is aborted, one per place of the source. *)
Inductive abort :=
| Not_ELF            (* "ERROR: Not ELF binary", std::terminate *)
| Unknown_ELF        (* "ERROR: Unknown ELF format", std::terminate *)
| No_section         (* exception of Elf_binary::section_header, uncaught *)
| Assert_magic       (* assert(multiboot.magic == MULTIBOOT_HEADER_MAGIC) *)
| Assert_checksum    (* assert(checksum + flags + magic == 0) *)
| Assert_aligned     (* assert((img_size_bytes & (SECT_SIZE-1)) == 0) *)
| Bad_alloc.         (* std::bad_alloc of vector<char> disk(disk_size), uncaught *)

Inductive outcome :=
| Exit (status : Z)      (* return from main, or exit *)
| Terminate (a : abort)  (* abnormal termination *)
| Fault.                 (* undefined behaviour *)

(** A small error monad: a step either goes on with a value or ends the
    run.  The instances give it stdpp's [x ← r; k] notation. *)
Inductive result (A : Type) :=
| Ok (a : A)
| Stop (o : outcome).
Arguments Ok {A} a.
Arguments Stop {A} o.

Global Instance result_ret : MRet result := fun _ a => Ok a.
Global Instance result_bind : MBind result := fun _ _ k r =>
  match r with
  | Ok a => k a
  | Stop o => Stop o
  end.

(** An out-of-bounds access ends the run with [Fault]. *)
Definition deref {A} (o : option A) : result A :=
  match o with
  | Some a => Ok a
  | None => Stop Fault
  end.

(** ** The environment *)

(** A file: the size [stat] reports, the bytes a read delivers and the
    bytes the file holds.  A complete read delivers all the bytes of the
    file; a partial read delivers fewer bytes than [stat] reported. *)
Record file := File {
  st_size : N;
  content : list byte;             (* what a read delivers *)
  data : list byte                 (* what the file holds *)
}.

Record World := {
  fs : gmap string file;           (* the files that exist *)
  getenv : string -> option string;
  errno : string -> Z;             (* the value [return errno] reads after
                                      the failed stat of a path: the error
                                      of stat, unless the diagnostic printed
                                      in between has overwritten it *)
  can_allocate : Z -> bool;        (* does the allocation of that many bytes
                                      succeed *)
  fopen_w : string -> bool;        (* does fopen(path, "w") give a stream *)
  fwrite_room : N                  (* bytes fwrite writes before it gives up *)
}.

(** A file whose read delivers what the file holds, all the bytes that
    [stat] reported. *)
Definition read_completely (f : file) : Prop :=
  content f = data f /\ length (data f) = N.to_nat (st_size f).

(** [istream::read(dst, n).gcount()]: the bytes delivered, at most [n]. *)
Definition read_bytes (f : file) (n : Z) : list byte :=
  take (Z.to_nat n) (content f).

Definition gcount (f : file) (n : Z) : Z :=
  Z.of_nat (length (read_bytes f n)).

(** ** The ELF32 reader *)

(** A [gsl::span] into the service binary: where it starts and how long
    it is. *)
Record Span := {
  sp_off : nat;
  sp_len : nat
}.

(** Modelled from the spec: [Elf32_Shdr] of [elf.h], the entry of the
    section-header table: ten 4-byte fields. *)
Record Elf32_Shdr := {
  sh_name : Z;
  sh_type : Z;
  sh_flags : Z;
  sh_addr : Z;
  sh_offset : Z;
  sh_size : Z;
  sh_link : Z;
  sh_info : Z;
  sh_addralign : Z;
  sh_entsize : Z
}.

(** Modelled from the spec: the class [Elf_binary<Elf32>] of
    [elf_binary.hpp] is not among the sources, so the three operations
    [main] calls are an interface.  [section_header] locates a section by
    its name and fails when there is none, [section_data] gives the
    section's bytes as a span of the binary, and [entry] is the entry
    point field of the primary header, a 32-bit address.  The binary is
    the span of the disk the object is constructed from; the
    construction itself is taken to succeed. *)
Class Elf_binary := {
  section_header : list byte -> string -> option Elf32_Shdr;
  section_data : list byte -> Elf32_Shdr -> Span;
  entry : list byte -> Z;
  entry_range : forall bin, 0 <= entry bin < 2 ^ 32
}.

(** ** The command line *)

Definition argc (argv : list string) : Z := Z.of_nat (length argv).

Definition arg (k : nat) (argv : list string) : string :=
  default EmptyString (argv !! k).

(** [get_bootloader_path]; [None] stands for the construction of a
    string from the null pointer of an unset [HOME]. *)
Definition get_bootloader_path (w : World) (argv : list string) : option string :=
  if bool_decide (argc argv = 2) then
    match getenv w "INCLUDEOS_INSTALL" with
    | Some env_install => Some (env_install +:+ "/bootloader")
    | None =>
        match getenv w "HOME" with
        | Some home => Some ((home +:+ "/IncludeOS_install") +:+ "/bootloader")
        | None => None
        end
    end
  else Some (arg 2 argv).

(** [s.find_last_of(c)], with [None] for [npos]. *)
Fixpoint find_last_of (c : ascii) (s : string) : option nat :=
  match s with
  | EmptyString => None
  | String a r =>
      match find_last_of c r with
      | Some i => Some (S i)
      | None => if Ascii.eqb a c then Some O else None
      end
  end.

(** [s.substr(pos, npos)] for [pos] up to the length of [s]. *)
Fixpoint substr (pos : nat) (s : string) : string :=
  match pos, s with
  | O, _ => s
  | S p, String _ r => substr p r
  | S _, EmptyString => EmptyString
  end.

(** The image is named after the last path component of the service;
    [npos + 1] wraps around to 0. *)
Definition img_name_of (elf_binary_path : string) : string :=
  let pos := match find_last_of "/"%char elf_binary_path with
             | Some i => S i
             | None => O
             end in
  substr pos elf_binary_path +:+ ".img".

(** [VERBOSE] set and not empty. *)
Definition env_verb (w : World) : bool :=
  match getenv w "VERBOSE" with
  | Some (String _ _) => true
  | _ => false
  end.

Definition opt_is (opt : string) (argv : list string) : bool :=
  bool_decide (3 < argc argv) && bool_decide (arg 3 argv = opt).

Definition test_of (argv : list string) : bool := opt_is "-test" argv.

Definition verb_of (w : World) (argv : list string) : bool :=
  env_verb w || opt_is "-test" argv || opt_is "-v" argv.

(** ** Image geometry *)

(** The rounded-up quotient of the specification. *)
Definition ceil_div (a b : Z) : Z := (a + b - 1) / b.

(** Lines 129-130: the sectors the service needs. *)
Definition binary_sectors_of (st_size : Z) : Z :=
  let binary_sectors := Z.quot st_size SECT_SIZE in
  if bool_decide (Z.land st_size (SECT_SIZE - 1) <> 0) then binary_sectors + 1
  else binary_sectors.

Definition img_size_sect_of (st_size : Z) : Z := 1 + binary_sectors_of st_size.

Definition img_size_bytes_of (st_size : Z) : Z :=
  img_size_sect_of st_size * SECT_SIZE.

(** Lines 146-160: the zero-initialised disk, the boot loader read to its
    start and the service read to the second sector. *)
Definition load_disk (boot binary : file) (disk_size : Z) : list byte :=
  let disk := replicate (Z.to_nat disk_size) x00 in
  let disk := list_inserts 0 (read_bytes boot (Z.of_N (st_size boot))) disk in
  let binary_imgloc := Z.to_nat SECT_SIZE in
  list_inserts binary_imgloc (read_bytes binary (Z.of_N (st_size binary))) disk.

(** The state of [main] once both files are in memory. *)
Record Loaded := {
  ld_img_name : string;
  ld_test : bool;
  ld_verb : bool;
  ld_st_binary : Z;          (* stat_binary.st_size *)
  ld_binary_sectors : Z;
  ld_img_size_bytes : Z;
  ld_disk : list byte
}.

(** Lines 72-160: the command line, the two [stat] calls, the geometry,
    the allocation of the disk and the two reads.  The product of
    [intmax_t] values may not overflow.  Between a failed [stat] and
    [return errno] a diagnostic is printed (by [INFO] in verbose mode,
    by [fprintf] for the service), which may change [errno]: [errno w]
    is the value the [return] reads.  An allocation that fails throws
    [std::bad_alloc], which nothing catches. *)
Definition load_inputs (argv : list string) (w : World) : result Loaded :=
  if bool_decide (argc argv <= 2) then Stop (Exit EXIT_FAILURE)
  else
    bootloader_path ← deref (get_bootloader_path w argv);
    let elf_binary_path := arg 1 argv in
    let img_name := img_name_of elf_binary_path in
    match fs w !! bootloader_path with
    | None => Stop (Exit (errno w bootloader_path))
    | Some stat_boot =>
        if bool_decide (Z.of_N (st_size stat_boot) <> SECT_SIZE) then Stop (Exit SECT_SIZE_ERR)
        else
          match fs w !! elf_binary_path with
          | None => Stop (Exit (errno w elf_binary_path))
          | Some stat_binary =>
              let st_binary := Z.of_N (st_size stat_binary) in
              let binary_sectors := binary_sectors_of st_binary in
              let img_size_bytes := img_size_bytes_of st_binary in
              if bool_decide (INTMAX_MAX < img_size_bytes) then Stop Fault
              else if bool_decide (Z.land img_size_bytes (SECT_SIZE - 1) <> 0)
              then Stop (Terminate Assert_aligned)
              else
                let disk_size := img_size_bytes in
                if negb (can_allocate w disk_size) then Stop (Terminate Bad_alloc)
                else
                Ok {| ld_img_name := img_name;
                      ld_test := test_of argv;
                      ld_verb := verb_of w argv;
                      ld_st_binary := st_binary;
                      ld_binary_sectors := binary_sectors;
                      ld_img_size_bytes := img_size_bytes;
                      ld_disk := load_disk stat_boot stat_binary disk_size |}
          end
    end.

(** ** Format inspection and patching *)

Definition to_uint32 (z : Z) : Z := z mod 2 ^ 32.

(** [p[i] == c] *)
Definition byte_is (disk : list byte) (p i : nat) (c : byte) : result bool :=
  b ← deref (disk !! (p + i)%nat); Ok (Byte.eqb b c).

(** The four magic bytes, compared from left to right as [&&] does. *)
Definition is_ELF (disk : list byte) (p : nat) : result bool :=
  m0 ← byte_is disk p EI_MAG0 ELFMAG0;
  if m0 : bool then
    m1 ← byte_is disk p EI_MAG1 ELFMAG1;
    if m1 : bool then
      m2 ← byte_is disk p EI_MAG2 ELFMAG2;
      if m2 : bool then byte_is disk p EI_MAG3 ELFMAG3 else Ok false
    else Ok false
  else Ok false.

(** The span [{binary_imgloc, stat_binary.st_size}] handed to
    [Elf_binary]: the service's bytes inside the disk. *)
Definition binary_span (st_binary : Z) (binary_imgloc : nat) (disk : list byte)
    : list byte :=
  take (Z.to_nat st_binary) (drop binary_imgloc disk).

Section Inspect.
Context `{EB : Elf_binary}.

(** Lines 171-199: the 32-bit service.  The multiboot header is read in
    place, through the pointer to the section's data. *)
Definition inspect32 (verb : bool) (st_binary binary_sectors : Z)
    (disk : list byte) (binary_imgloc : nat) : result (list byte) :=
  let binary := binary_span st_binary binary_imgloc in
  sh_multiboot ← match section_header (binary disk) ".multiboot" with
                 | Some sh => Ok sh
                 | None => Stop (Terminate No_section)
                 end;
  let multiboot := (binary_imgloc + sp_off (section_data (binary disk) sh_multiboot))%nat in
  mb_magic ← deref (load 4 multiboot disk);
  if bool_decide (mb_magic <> MULTIBOOT_HEADER_MAGIC) then Stop (Terminate Assert_magic)
  else
    mb_flags ← deref (load 4 (multiboot + 4) disk);
    mb_checksum ← deref (load 4 (multiboot + 8) disk);
    if bool_decide (to_uint32 (to_uint32 (mb_checksum + mb_flags) + mb_magic) <> 0)
    then Stop (Terminate Assert_checksum)
    else
      _ ← (if verb then deref (load 20 (multiboot + 12) disk) else Ok 0);
      let disk := store 4 bootvar_binary_size binary_sectors disk in
      let disk := store 4 bootvar_binary_location (entry (binary disk)) disk in
      Ok disk.

(** Lines 204-210: the 64-bit service. *)
Definition inspect64 (binary_sectors : Z) (disk : list byte)
    (binary_imgloc : nat) : result (list byte) :=
  e_entry ← deref (load 8 (binary_imgloc + Elf64_e_entry_off) disk);
  let disk := store 4 bootvar_binary_size (to_uint32 binary_sectors) disk in
  let disk := store 4 bootvar_binary_location (to_uint32 e_entry) disk in
  Ok disk.

(** Lines 163-222. *)
Definition inspect (verb : bool) (st_binary binary_sectors : Z)
    (disk : list byte) : result (list byte) :=
  let binary_imgloc := Z.to_nat SECT_SIZE in
  elf ← is_ELF disk binary_imgloc;
  if elf : bool then
    c32 ← byte_is disk binary_imgloc EI_CLASS ELFCLASS32;
    if c32 : bool then inspect32 verb st_binary binary_sectors disk binary_imgloc
    else
      c64 ← byte_is disk binary_imgloc EI_CLASS ELFCLASS64;
      if c64 : bool then inspect64 binary_sectors disk binary_imgloc
      else Stop (Terminate Unknown_ELF)
  else Stop (Terminate Not_ELF).

(** Lines 224-229: the test pattern over the service's sectors.  The
    counter is an [int]: the loop is defined only while [512 + i] and the
    last increment stay in range. *)
Definition test_fill (img_size_bytes : Z) (disk : list byte) : result (list byte) :=
  if bool_decide (img_size_bytes - 1 <= INT_MAX) then
    Ok (foldl (fun d i => <[Z.to_nat (512 + i) := byte_of_Z (Z.rem i 256)]> d)
              disk (seqZ 0 (img_size_bytes - 512)))
  else Stop Fault.

(** What is in memory when the image is about to be written. *)
Record Assembled := {
  img_name : string;
  disk_size : Z;
  disk : list byte
}.

(** Lines 72-229: everything before the image file is opened. *)
Definition assemble (argv : list string) (w : World) : result Assembled :=
  st ← load_inputs argv w;
  disk ← inspect (ld_verb st) (ld_st_binary st) (ld_binary_sectors st) (ld_disk st);
  disk ← (if ld_test st then test_fill (ld_img_size_bytes st) disk else Ok disk);
  Ok {| img_name := ld_img_name st;
        disk_size := ld_img_size_bytes st;
        disk := disk |}.

(** Lines 232-238: [fopen], [fwrite], [fclose].  Neither the stream nor
    the number of bytes written is looked at; writing to the null stream
    of a failed [fopen] is undefined. *)
Definition write_image (w : World) (a : Assembled) : outcome * gmap string file :=
  if fopen_w w (img_name a) then
    let wrote := N.min (Z.to_N (disk_size a)) (fwrite_room w) in
    (Exit EXIT_SUCCESS,
     <[img_name a := {| st_size := wrote;
                        content := take (N.to_nat wrote) (disk a);
                        data := take (N.to_nat wrote) (disk a) |}]> (fs w))
  else (Fault, fs w).

(** The program: its outcome and the file system it leaves. *)
Definition main (argv : list string) (w : World) : outcome * gmap string file :=
  match assemble argv w with
  | Ok a => write_image w a
  | Stop o => (o, fs w)
  end.

End Inspect.

(** ** Notions used by the statements *)

(** The service as it lies in the buffer: the bytes read, and zeros up
    to the size [stat] reported. *)
Definition service_image (binary : file) : list byte :=
  let r := read_bytes binary (Z.of_N (st_size binary)) in
  r ++ replicate (N.to_nat (st_size binary) - length r) x00.

(** The entry point field of a 64-bit header; bytes the binary is too
    short to hold count as zero. *)
Definition Elf64_e_entry (bin : list byte) : Z :=
  le_val (take 8 (drop Elf64_e_entry_off bin)).

(** The four magic bytes of a buffer at [p]. *)
Definition has_magic (d : list byte) (p : nat) : Prop :=
  d !! (p + EI_MAG0)%nat = Some ELFMAG0 /\ d !! (p + EI_MAG1)%nat = Some ELFMAG1 /\
  d !! (p + EI_MAG2)%nat = Some ELFMAG2 /\ d !! (p + EI_MAG3)%nat = Some ELFMAG3.

(** The two patches, as the 32-bit and the 64-bit path apply them. *)
Definition patch (sectors entry_point : Z) (d : list byte) : list byte :=
  store 4 bootvar_binary_location entry_point (store 4 bootvar_binary_size sectors d).

(** The state [load_inputs] builds from the two files. *)
Definition loaded (argv : list string) (w : World) (boot binary : file) : Loaded :=
  let S := Z.of_N (st_size binary) in
  {| ld_img_name := img_name_of (arg 1 argv);
     ld_test := test_of argv;
     ld_verb := verb_of w argv;
     ld_st_binary := S;
     ld_binary_sectors := binary_sectors_of S;
     ld_img_size_bytes := img_size_bytes_of S;
     ld_disk := load_disk boot binary (img_size_bytes_of S) |}.

(** ** Validation failures, in the words of the specification *)

Section Validation.
Context `{EB : Elf_binary}.

(** Where [main] finds the multiboot header of a 32-bit service. *)
Definition multiboot_ptr (S : Z) (d : list byte) (sh : Elf32_Shdr) : nat :=
  (512 + sp_off (section_data (binary_span S 512 d) sh))%nat.

(** The checks a loaded service of size [S] can fail: the magic bytes
    (NotExecutable), the class byte (UnsupportedClass), the lookup of the
    [.multiboot] section (MissingSection) and the two invariants of the
    multiboot header (BadMultibootHeader). *)
Inductive validation_fails (S : Z) (d : list byte) : Prop :=
| NotExecutable (b0 b1 b2 b3 : byte) :
    d !! 512%nat = Some b0 -> d !! 513%nat = Some b1 ->
    d !! 514%nat = Some b2 -> d !! 515%nat = Some b3 ->
    [b0; b1; b2; b3] <> [ELFMAG0; ELFMAG1; ELFMAG2; ELFMAG3] ->
    validation_fails S d
| UnsupportedClass (c : byte) :
    has_magic d 512 -> d !! 516%nat = Some c ->
    c <> ELFCLASS32 -> c <> ELFCLASS64 ->
    validation_fails S d
| MissingSection :
    has_magic d 512 -> d !! 516%nat = Some ELFCLASS32 ->
    section_header (binary_span S 512 d) ".multiboot" = None ->
    validation_fails S d
| BadMultibootMagic (sh : Elf32_Shdr) (m : Z) :
    has_magic d 512 -> d !! 516%nat = Some ELFCLASS32 ->
    section_header (binary_span S 512 d) ".multiboot" = Some sh ->
    load 4 (multiboot_ptr S d sh) d = Some m ->
    m <> MULTIBOOT_HEADER_MAGIC ->
    validation_fails S d
| BadMultibootChecksum (sh : Elf32_Shdr) (m f c : Z) :
    has_magic d 512 -> d !! 516%nat = Some ELFCLASS32 ->
    section_header (binary_span S 512 d) ".multiboot" = Some sh ->
    load 4 (multiboot_ptr S d sh) d = Some m ->
    load 4 (multiboot_ptr S d sh + 4) d = Some f ->
    load 4 (multiboot_ptr S d sh + 8) d = Some c ->
    (m + f + c) mod 2 ^ 32 <> 0 ->
    validation_fails S d.

End Validation.

(** A file that is as long as [stat] reports, with zeros in place of the
    bytes a read of the original does not deliver. *)
Definition zero_padded (f : file) : file :=
  {| st_size := st_size f; content := service_image f; data := service_image f |}.

(** The world in which every file is read completely. *)
Definition complete_reads (w : World) : World :=
  {| fs := zero_padded <$> fs w;
     getenv := getenv w;
     errno := errno w;
     can_allocate := can_allocate w;
     fopen_w := fopen_w w;
     fwrite_room := fwrite_room w |}.


(** The world with another environment. *)
Definition set_getenv (ge : string -> option string) (w : World) : World :=
  {| fs := fs w;
     getenv := ge;
     errno := errno w;
     can_allocate := can_allocate w;
     fopen_w := fopen_w w;
     fwrite_room := fwrite_room w |}.

(** The body of the loop of the test pattern, lines 226-228. *)
Definition test_step (d : list byte) (i : Z) : list byte :=
  <[Z.to_nat (512 + i) := byte_of_Z (Z.rem i 256)]> d.


(** A step that does not leave through [return] or [exit]. *)
Definition no_exit {A} (r : result A) : Prop := forall z, r <> Stop (Exit z).

(** ** A reader for the ELF32 layout *)

Module Elf32.

(** A field of the binary; a field outside of the binary reads as 0. *)
Definition field (n off : nat) (bin : list byte) : Z :=
  default 0 (load n off bin).

(** Modelled from the spec: [Elf32_Ehdr] of [elf.h].  After the 16
    identification bytes come type (2), machine (2), version (4), entry
    (4), program-header offset (4), section-header offset (4), flags (4),
    header size (2), program-header entry size (2) and count (2),
    section-header entry size (2) and count (2), and the index of the
    section-name string table (2). *)
Definition e_entry (bin : list byte) : Z := field 4 24 bin.
Definition e_shoff (bin : list byte) : Z := field 4 32 bin.
Definition e_shnum (bin : list byte) : Z := field 2 48 bin.
Definition e_shstrndx (bin : list byte) : Z := field 2 50 bin.

Definition Shdr_size : nat := 40.

(** The [i]-th entry of the section-header table. *)
Definition shdr_at (bin : list byte) (i : nat) : Elf32_Shdr :=
  let base := (Z.to_nat (e_shoff bin) + Shdr_size * i)%nat in
  {| sh_name := field 4 base bin;
     sh_type := field 4 (base + 4) bin;
     sh_flags := field 4 (base + 8) bin;
     sh_addr := field 4 (base + 12) bin;
     sh_offset := field 4 (base + 16) bin;
     sh_size := field 4 (base + 20) bin;
     sh_link := field 4 (base + 24) bin;
     sh_info := field 4 (base + 28) bin;
     sh_addralign := field 4 (base + 32) bin;
     sh_entsize := field 4 (base + 36) bin |}.

Definition section_headers (bin : list byte) : list Elf32_Shdr :=
  shdr_at bin <$> seq 0 (Z.to_nat (e_shnum bin)).

(** The zero-terminated string at the start of [bs]. *)
Fixpoint cstring (bs : list byte) : string :=
  match bs with
  | [] => EmptyString
  | b :: bs' =>
      if Byte.eqb b x00 then EmptyString
      else String (ascii_of_byte b) (cstring bs')
  end.

Definition section_header_name (bin : list byte) (sh : Elf32_Shdr) : string :=
  let names := shdr_at bin (Z.to_nat (e_shstrndx bin)) in
  cstring (drop (Z.to_nat (sh_offset names + sh_name sh)) bin).

(** Modelled from the spec: the section-header table is parsed and the
    section is located by comparing name strings; there is no result when
    no section has the name. *)
Definition find_section (bin : list byte) (name : string) : option Elf32_Shdr :=
  List.find (fun sh => bool_decide (section_header_name bin sh = name))
            (section_headers bin).

Definition data_span (bin : list byte) (sh : Elf32_Shdr) : Span :=
  {| sp_off := Z.to_nat (sh_offset sh); sp_len := Z.to_nat (sh_size sh) |}.

(** Modelled from the spec: [Elf_binary<Elf32>], by the ELF32 layout; the
    entry point is the primary header's field, as a 32-bit address. *)
#[export] Instance reader : Elf_binary := {|
  section_header := find_section;
  section_data := data_span;
  entry := fun bin => to_uint32 (e_entry bin);
  entry_range := fun bin => Z.mod_pos_bound (e_entry bin) (2 ^ 32) eq_refl
|}.

End Elf32.

(** ** Sample inputs *)

Module Sample.

Definition bytes_of_string (s : string) : list byte :=
  byte_of_ascii <$> list_ascii_of_string s.

(** A minimal 32-bit service: the 52-byte header, a [.multiboot] section
    of 32 bytes at offset 52, the section names at offset 84 and three
    section headers at offset 108. *)
Definition multiboot_bytes (m f c e : Z) : list byte :=
  le_bytes 4 m ++ le_bytes 4 f ++ le_bytes 4 c ++
  le_bytes 4 0 ++ le_bytes 4 0 ++ le_bytes 4 0 ++ le_bytes 4 0 ++ le_bytes 4 e.

Definition shdr_bytes (name type flags addr off size align : Z) : list byte :=
  le_bytes 4 name ++ le_bytes 4 type ++ le_bytes 4 flags ++ le_bytes 4 addr ++
  le_bytes 4 off ++ le_bytes 4 size ++ le_bytes 4 0 ++ le_bytes 4 0 ++
  le_bytes 4 align ++ le_bytes 4 0.

Definition elf32_with (section_name : string) (m f c e : Z) : list byte :=
  [x7f; x45; x4c; x46; x01; x01; x01; x00] ++ replicate 8 x00 ++
  le_bytes 2 2 ++ le_bytes 2 3 ++ le_bytes 4 1 ++ le_bytes 4 e ++
  le_bytes 4 0 ++ le_bytes 4 108 ++ le_bytes 4 0 ++
  le_bytes 2 52 ++ le_bytes 2 0 ++ le_bytes 2 0 ++
  le_bytes 2 40 ++ le_bytes 2 3 ++ le_bytes 2 2 ++
  multiboot_bytes m f c e ++
  ([x00] ++ bytes_of_string section_name ++ [x00] ++
   bytes_of_string ".shstrtab" ++ [x00]) ++ replicate 2 x00 ++
  replicate 40 x00 ++
  shdr_bytes 1 1 2 e 52 32 4 ++
  shdr_bytes 12 3 0 0 84 22 1.

(** The service of the first example scenario. *)
Definition elf32 : list byte :=
  elf32_with ".multiboot" MULTIBOOT_HEADER_MAGIC 0
             (2 ^ 32 - MULTIBOOT_HEADER_MAGIC) 0x00100000.

(** A 64-bit service: the header alone, with the entry point
    0x1_0020_0000, which does not fit 32 bits. *)
Definition elf64 : list byte :=
  [x7f; x45; x4c; x46; x02; x01; x01; x00] ++ replicate 8 x00 ++
  le_bytes 2 2 ++ le_bytes 2 62 ++ le_bytes 4 1 ++ le_bytes 8 0x100200000 ++
  replicate 32 x00.

(** The 64-bit service followed by zeros, 1025 bytes in all. *)
Definition elf64_1025 : list byte := elf64 ++ replicate 961 x00.

Definition whole (bs : list byte) : file :=
  {| st_size := N.of_nat (length bs); content := bs; data := bs |}.

(** A sparse 64-bit service of 2 TiB: the header, then zeros. *)
Definition huge_bytes : list byte :=
  elf64 ++ replicate (N.to_nat 2199023255488) x00.
Definition huge : file :=
  {| st_size := 2199023255552; content := huge_bytes; data := huge_bytes |}.

Definition bootloader : list byte :=
  (fun i => byte_of_Z (Z.of_nat i + 1)) <$> seq 0 512.

(** A world with a boot loader and one service, where every call
    succeeds and the file system takes [room] bytes. *)
Definition world (boot service : file) (room : N) : World :=
  {| fs := <["bootloader" := boot]> (<["build/service" := service]> ∅);
     getenv := fun _ => None;
     errno := fun _ => 2;
     can_allocate := fun _ => true;
     fopen_w := fun _ => true;
     fwrite_room := room |}.

Definition argv : list string := ["vmbuild"; "build/service"; "bootloader"].

(** The sparse service with the sample boot loader, on a machine with
    the memory for the disk and a file system with the room for the
    image. *)
Definition huge_world : World := world (whole bootloader) huge 2199023256064.

(** The sample services with the sample boot loader. *)
Definition w32 : World := world (whole bootloader) (whole elf32) 4096.
Definition w64 : World := world (whole bootloader) (whole elf64) 4096.
Definition w64_1025 : World := world (whole bootloader) (whole elf64_1025) 4096.

(** A shell script in place of the service. *)
Definition script : list byte := bytes_of_string "#!/bin/sh".
Definition w_script : World := world (whole bootloader) (whole script) 4096.

(** A 32-bit service whose multiboot checksum is wrong. *)
Definition elf32_bad_checksum : list byte :=
  elf32_with ".multiboot" MULTIBOOT_HEADER_MAGIC 5 5 0x00100000.
Definition w_bad_checksum : World :=
  world (whole bootloader) (whole elf32_bad_checksum) 4096.

(** A boot loader of 511 bytes. *)
Definition short_bootloader : list byte := take 511 bootloader.
Definition w_short_bootloader : World :=
  world (whole short_bootloader) (whole elf32) 4096.

(** A boot loader of 512 bytes of which a read delivers 100. *)
Definition partial_bootloader : file :=
  {| st_size := 512; content := take 100 bootloader; data := bootloader |}.
Definition w_partial_read : World := world partial_bootloader (whole elf32) 4096.

(** The 64-bit sample, of which a read delivers the first 20 bytes. *)
Definition partial_service : file :=
  {| st_size := 64; content := take 20 elf64; data := elf64 |}.
Definition w_partial_service : World :=
  world (whole bootloader) partial_service 4096.

(** A file system that takes 100 bytes. *)
Definition w_short_write : World := world (whole bootloader) (whole elf32) 100.

Definition argv_test : list string := argv ++ ["-test"].

(** The service alone on the command line, with an installation that
    has a boot loader. *)
Definition argv_service_only : list string := ["vmbuild"; "build/service"].
Definition w_installed : World :=
  {| fs := <["/usr/local/includeos/bootloader" := whole bootloader]>
             (<["build/service" := whole elf32]> ∅);
     getenv := fun v => if bool_decide (v = "INCLUDEOS_INSTALL")
                        then Some "/usr/local/includeos" else None;
     errno := fun _ => 2;
     can_allocate := fun _ => true;
     fopen_w := fun _ => true;
     fwrite_room := 4096 |}.

(** A world without the boot loader and one without the service. *)
Definition w_no_bootloader : World :=
  {| fs := <["build/service" := whole elf32]> ∅;
     getenv := fun _ => None;
     errno := fun _ => 2;
     can_allocate := fun _ => true;
     fopen_w := fun _ => true;
     fwrite_room := 4096 |}.
Definition w_no_service : World :=
  {| fs := <["bootloader" := whole bootloader]> ∅;
     getenv := fun _ => None;
     errno := fun _ => 2;
     can_allocate := fun _ => true;
     fopen_w := fun _ => true;
     fwrite_room := 4096 |}.

(** The 32-bit sample with [VERBOSE] set. *)
Definition w32_verbose : World :=
  set_getenv (fun v => if bool_decide (v = "VERBOSE") then Some "1" else None) w32.

End Sample.

(** * Properties *)

(** ** Bytes and fields *)

Lemma byte_to_Z_range (b : byte) : 0 <= byte_to_Z b < 256.
Proof.
  unfold byte_to_Z. pose proof (Byte.to_N_bounded b). lia.
Qed.

Lemma byte_to_of_Z (z : Z) : byte_to_Z (byte_of_Z z) = z mod 256.
Proof.
  unfold byte_to_Z, byte_of_Z.
  pose proof (Z.mod_pos_bound z 256 eq_refl) as Hr.
  destruct (Byte.of_N (Z.to_N (z mod 256))) as [b|] eqn:Hb.
  - apply Byte.to_of_N in Hb. rewrite Hb. lia.
  - apply Byte.of_N_None_iff in Hb. lia.
Qed.

Lemma length_le_bytes (n : nat) (v : Z) : length (le_bytes n v) = n.
Proof.
  revert v. induction n as [|n IH]; intros v; simpl; [reflexivity|].
  now rewrite IH.
Qed.

Lemma le_val_le_bytes (n : nat) (v : Z) :
  le_val (le_bytes n v) = v mod 2 ^ (8 * Z.of_nat n).
Proof.
  revert v. induction n as [|n IH]; intros v.
  - simpl. now rewrite Z.mod_1_r.
  - cbn [le_bytes le_val]. rewrite IH, byte_to_of_Z.
    replace (8 * Z.of_nat (S n)) with (8 + 8 * Z.of_nat n) by lia.
    rewrite Z.pow_add_r by lia. change (2 ^ 8) with 256.
    rewrite Z.rem_mul_r by lia. reflexivity.
Qed.

Lemma le_bytes_mod (n : nat) (v : Z) :
  le_bytes n (v mod 2 ^ (8 * Z.of_nat n)) = le_bytes n v.
Proof.
  revert v. induction n as [|n IH]; intros v; [reflexivity|].
  cbn [le_bytes].
  replace (8 * Z.of_nat (S n)) with (8 + 8 * Z.of_nat n) by lia.
  rewrite Z.pow_add_r by lia. change (2 ^ 8) with 256.
  assert (0 < 2 ^ (8 * Z.of_nat n)) by (apply Z.pow_pos_nonneg; lia).
  rewrite Z.rem_mul_r by lia.
  pose proof (Z.mod_pos_bound v 256 eq_refl).
  f_equal.
  - unfold byte_of_Z.
    rewrite (Z.mul_comm 256), Z.mod_add, Z.mod_mod by lia. reflexivity.
  - rewrite (Z.mul_comm 256), Z.div_add, Z.div_small by lia. apply IH.
Qed.

(** A field only depends on the bytes it covers. *)
Lemma region_ext (n off : nat) (b1 b2 : list byte) :
  (forall j, (off <= j < off + n)%nat -> b1 !! j = b2 !! j) ->
  take n (drop off b1) = take n (drop off b2).
Proof.
  intros H. apply list_eq. intros i.
  destruct (decide (i < n)%nat) as [Hi|Hi].
  - rewrite !lookup_take_lt, !lookup_drop by lia. apply H. lia.
  - rewrite !lookup_take_ge by lia. reflexivity.
Qed.

Lemma load_ext (n off : nat) (b1 b2 : list byte) :
  (forall j, (off <= j < off + n)%nat -> b1 !! j = b2 !! j) ->
  load n off b1 = load n off b2.
Proof.
  intros H. unfold load. now rewrite (region_ext n off b1 b2 H).
Qed.

Lemma load_is_Some (n off : nat) (buf : list byte) :
  (off + n <= length buf)%nat -> load n off buf = Some (le_val (take n (drop off buf))).
Proof.
  intros H. unfold load.
  rewrite decide_True; [reflexivity|].
  rewrite length_take, length_drop. lia.
Qed.

Lemma length_store (n off : nat) (v : Z) (buf : list byte) :
  length (store n off v buf) = length buf.
Proof. unfold store. apply length_inserts. Qed.

Lemma lookup_store_outside (n off : nat) (v : Z) (buf : list byte) (j : nat) :
  (j < off \/ off + n <= j)%nat -> store n off v buf !! j = buf !! j.
Proof.
  intros [H|H]; unfold store.
  - now apply list_lookup_inserts_lt.
  - apply list_lookup_inserts_ge. rewrite length_le_bytes. lia.
Qed.

Lemma load_store (n off : nat) (v : Z) (buf : list byte) :
  (off + n <= length buf)%nat ->
  load n off (store n off v buf) = Some (v mod 2 ^ (8 * Z.of_nat n)).
Proof.
  intros H. rewrite load_is_Some by (rewrite length_store; lia).
  f_equal. rewrite <- le_val_le_bytes. f_equal.
  apply list_eq. intros i. unfold store.
  destruct (decide (i < n)%nat) as [Hi|Hi].
  - rewrite lookup_take_lt, lookup_drop by lia.
    rewrite list_lookup_inserts by (rewrite ?length_le_bytes; lia).
    f_equal. lia.
  - rewrite lookup_take_ge by lia. symmetry.
    apply lookup_ge_None. rewrite length_le_bytes. lia.
Qed.

Lemma load_store_outside (n off m off' : nat) (v : Z) (buf : list byte) :
  (off' + m <= off \/ off + n <= off')%nat ->
  load m off' (store n off v buf) = load m off' buf.
Proof.
  intros H. apply load_ext. intros j Hj.
  apply lookup_store_outside. lia.
Qed.

(** ** The error monad *)

Lemma bind_Ok {A B} (r : result A) (k : A -> result B) (b : B) :
  r ≫= k = Ok b -> exists a, r = Ok a /\ k a = Ok b.
Proof. destruct r as [a|o]; [eauto | discriminate]. Qed.

Lemma deref_Ok {A} (o : option A) (a : A) : deref o = Ok a -> o = Some a.
Proof. destruct o; simpl; congruence. Qed.

(** Takes a successful chain of steps apart. *)
Ltac inv_ok H :=
  repeat match type of H with
  | _ ≫= _ = Ok _ =>
      let a := fresh "a" in let Ha := fresh "Ha" in
      apply bind_Ok in H as (a & Ha & H)
  end.

(** ** Geometry *)

Lemma binary_sectors_ceil (S : Z) :
  0 <= S -> binary_sectors_of S = ceil_div S 512.
Proof.
  intros HS. unfold binary_sectors_of, ceil_div, SECT_SIZE.
  rewrite Z.quot_div_nonneg by lia.
  change (512 - 1) with (Z.ones 9). rewrite Z.land_ones by lia.
  change (2 ^ 9) with 512.
  destruct (decide (S mod 512 <> 0)) as [H|H].
  - rewrite bool_decide_eq_true_2 by assumption. Z.div_mod_to_equations. lia.
  - rewrite bool_decide_eq_false_2 by assumption. Z.div_mod_to_equations. lia.
Qed.

Lemma img_size_bytes_ceil (S : Z) :
  0 <= S -> img_size_bytes_of S = 512 * (1 + ceil_div S 512).
Proof.
  intros HS. unfold img_size_bytes_of, img_size_sect_of, SECT_SIZE.
  rewrite binary_sectors_ceil by assumption. lia.
Qed.

Lemma ceil_div_nonneg (S : Z) : 0 <= S -> 0 <= ceil_div S 512.
Proof. intros HS. unfold ceil_div. Z.div_mod_to_equations. lia. Qed.

Lemma ceil_div_covers (S : Z) : 0 <= S -> S <= 512 * ceil_div S 512 < S + 512.
Proof. intros HS. unfold ceil_div. Z.div_mod_to_equations. lia. Qed.

Lemma img_size_bytes_aligned (S : Z) :
  0 <= S -> Z.land (img_size_bytes_of S) (SECT_SIZE - 1) = 0.
Proof.
  intros HS. rewrite img_size_bytes_ceil by assumption. unfold SECT_SIZE.
  change (512 - 1) with (Z.ones 9). rewrite Z.land_ones by lia.
  change (2 ^ 9) with 512. rewrite Z.mul_comm. apply Z.mod_mul. lia.
Qed.

(** ** The loaded disk *)

Lemma length_read_bytes (f : file) (n : Z) :
  (length (read_bytes f n) <= Z.to_nat n)%nat.
Proof. unfold read_bytes. rewrite length_take. lia. Qed.

Lemma lookup_read_bytes (f : file) (n : Z) (i : nat) :
  (i < Z.to_nat n)%nat -> read_bytes f n !! i = content f !! i.
Proof. intros H. unfold read_bytes. now apply lookup_take_lt. Qed.

Lemma length_load_disk (boot binary : file) (n : Z) :
  length (load_disk boot binary n) = Z.to_nat n.
Proof.
  unfold load_disk. now rewrite !length_inserts, length_replicate.
Qed.

(** A read into a zero buffer: the bytes delivered, zero after them. *)
Lemma lookup_inserts_zeros (off : nat) (k : list byte) (len j : nat) :
  (off <= j < len)%nat ->
  list_inserts off k (replicate len x00) !! j = Some (default x00 (k !! (j - off)%nat)).
Proof.
  intros H. destruct (decide (j < off + length k)%nat) as [Hj|Hj].
  - rewrite list_lookup_inserts by (rewrite ?length_replicate; lia).
    destruct (lookup_lt_is_Some_2 k (j - off)%nat ltac:(lia)) as [b ->].
    reflexivity.
  - rewrite list_lookup_inserts_ge by lia.
    rewrite lookup_replicate_2 by lia.
    rewrite (proj2 (lookup_ge_None k (j - off)%nat)) by lia. reflexivity.
Qed.

(** The first sector holds what was read of the boot loader. *)
Lemma lookup_load_disk_boot (boot binary : file) (n : Z) (i : nat) :
  Z.of_N (st_size boot) = 512 -> 512 <= n -> (i < 512)%nat ->
  load_disk boot binary n !! i = Some (default x00 (content boot !! i)).
Proof.
  intros Hb Hn Hi. unfold load_disk, SECT_SIZE.
  rewrite list_lookup_inserts_lt by lia.
  rewrite lookup_inserts_zeros by lia.
  rewrite Nat.sub_0_r, lookup_read_bytes by lia. reflexivity.
Qed.

(** The sectors after it hold what was read of the service. *)
Lemma lookup_load_disk_binary (boot binary : file) (n : Z) (j : nat) :
  Z.of_N (st_size boot) = 512 ->
  512 + Z.of_N (st_size binary) <= n ->
  (512 + j < Z.to_nat n)%nat ->
  load_disk boot binary n !! (512 + j)%nat =
    Some (default x00 (read_bytes binary (Z.of_N (st_size binary)) !! j)).
Proof.
  intros Hb Hn Hj. unfold load_disk, SECT_SIZE.
  pose proof (length_read_bytes boot (Z.of_N (st_size boot))) as Lb.
  pose proof (length_read_bytes binary (Z.of_N (st_size binary))) as Ls.
  change (Z.to_nat 512) with 512%nat.
  destruct (decide (j < length (read_bytes binary (Z.of_N (st_size binary))))%nat) as [H|H].
  - rewrite list_lookup_inserts by (rewrite ?length_inserts, ?length_replicate; lia).
    replace (512 + j - 512)%nat with j by lia.
    destruct (lookup_lt_is_Some_2 _ j H) as [b ->]. reflexivity.
  - rewrite list_lookup_inserts_ge by lia.
    rewrite list_lookup_inserts_ge by lia.
    rewrite lookup_replicate_2 by lia.
    rewrite (proj2 (lookup_ge_None _ j)) by lia. reflexivity.
Qed.

(** ** Inspection and patching *)

Lemma byte_is_Ok (d : list byte) (p i : nat) (c : byte) (r : bool) :
  byte_is d p i c = Ok r -> exists x, d !! (p + i)%nat = Some x /\ r = Byte.eqb x c.
Proof.
  unfold byte_is. intros H. inv_ok H. apply deref_Ok in Ha.
  injection H as <-. eauto.
Qed.

Lemma byte_is_true (d : list byte) (p i : nat) (c : byte) :
  byte_is d p i c = Ok true -> d !! (p + i)%nat = Some c.
Proof.
  intros H. apply byte_is_Ok in H as (x & Hx & He).
  symmetry in He. apply Byte.byte_dec_bl in He. now subst.
Qed.

Lemma byte_is_lookup (d : list byte) (p i : nat) (c x : byte) :
  d !! (p + i)%nat = Some x -> byte_is d p i c = Ok (Byte.eqb x c).
Proof. intros H. unfold byte_is. now rewrite H. Qed.

Lemma byte_eqb_refl (c : byte) : Byte.eqb c c = true.
Proof. now apply Byte.byte_dec_lb. Qed.

Lemma byte_eqb_neq (x c : byte) : x <> c -> Byte.eqb x c = false.
Proof.
  intros H. destruct (Byte.eqb x c) eqn:E; [|reflexivity].
  now apply Byte.byte_dec_bl in E.
Qed.

Lemma is_ELF_true (d : list byte) (p : nat) :
  is_ELF d p = Ok true -> has_magic d p.
Proof.
  unfold is_ELF, has_magic. intros H.
  apply bind_Ok in H as ([|] & H0 & H); [|discriminate].
  apply bind_Ok in H as ([|] & H1 & H); [|discriminate].
  apply bind_Ok in H as ([|] & H2 & H); [|discriminate].
  auto using byte_is_true.
Qed.

Lemma is_ELF_magic (d : list byte) (p : nat) :
  has_magic d p -> is_ELF d p = Ok true.
Proof.
  intros (H0 & H1 & H2 & H3). unfold is_ELF.
  rewrite (byte_is_lookup _ _ _ _ _ H0), byte_eqb_refl. cbn.
  rewrite (byte_is_lookup _ _ _ _ _ H1), byte_eqb_refl. cbn.
  rewrite (byte_is_lookup _ _ _ _ _ H2), byte_eqb_refl. cbn.
  rewrite (byte_is_lookup _ _ _ _ _ H3), byte_eqb_refl. reflexivity.
Qed.

(** With four bytes in the buffer, [is_ELF] answers, and answers [false]
    when one of them differs from the magic. *)
Lemma is_ELF_mismatch (d : list byte) (p : nat) (b0 b1 b2 b3 : byte) :
  d !! (p + EI_MAG0)%nat = Some b0 -> d !! (p + EI_MAG1)%nat = Some b1 ->
  d !! (p + EI_MAG2)%nat = Some b2 -> d !! (p + EI_MAG3)%nat = Some b3 ->
  [b0; b1; b2; b3] <> [ELFMAG0; ELFMAG1; ELFMAG2; ELFMAG3] ->
  is_ELF d p = Ok false.
Proof.
  intros H0 H1 H2 H3 Hne. unfold is_ELF.
  rewrite (byte_is_lookup _ _ _ _ _ H0). cbn.
  destruct (Byte.eqb b0 ELFMAG0) eqn:E0; [|reflexivity].
  rewrite (byte_is_lookup _ _ _ _ _ H1). cbn.
  destruct (Byte.eqb b1 ELFMAG1) eqn:E1; [|reflexivity].
  rewrite (byte_is_lookup _ _ _ _ _ H2). cbn.
  destruct (Byte.eqb b2 ELFMAG2) eqn:E2; [|reflexivity].
  rewrite (byte_is_lookup _ _ _ _ _ H3).
  destruct (Byte.eqb b3 ELFMAG3) eqn:E3; [|reflexivity].
  apply Byte.byte_dec_bl in E0, E1, E2, E3. congruence.
Qed.

Lemma binary_span_store (S : Z) (p n off : nat) (v : Z) (d : list byte) :
  (off + n <= p)%nat -> binary_span S p (store n off v d) = binary_span S p d.
Proof.
  intros H. unfold binary_span. apply region_ext. intros j Hj.
  apply lookup_store_outside. lia.
Qed.

Lemma to_uint32_sum (m f c : Z) :
  to_uint32 (to_uint32 (c + f) + m) = (m + f + c) mod 2 ^ 32.
Proof.
  unfold to_uint32. rewrite Z.add_mod_idemp_l by lia. f_equal. lia.
Qed.

Section InspectProps.
Context `{EB : Elf_binary}.

Lemma length_patch (s e : Z) (d : list byte) : length (patch s e d) = length d.
Proof. unfold patch. now rewrite !length_store. Qed.

Lemma lookup_patch_outside (s e : Z) (d : list byte) (j : nat) :
  (j < 4 \/ 12 <= j)%nat -> patch s e d !! j = d !! j.
Proof.
  intros H. unfold patch, bootvar_binary_location, bootvar_binary_size.
  rewrite !lookup_store_outside by lia. reflexivity.
Qed.

Lemma load_patch_sectors (s e : Z) (d : list byte) :
  (12 <= length d)%nat ->
  load 4 bootvar_binary_size (patch s e d) = Some (s mod 2 ^ 32).
Proof.
  intros H. unfold patch, bootvar_binary_location, bootvar_binary_size.
  rewrite load_store_outside by lia.
  rewrite load_store by lia. reflexivity.
Qed.

Lemma load_patch_entry (s e : Z) (d : list byte) :
  (12 <= length d)%nat ->
  load 4 bootvar_binary_location (patch s e d) = Some (e mod 2 ^ 32).
Proof.
  intros H. unfold patch, bootvar_binary_location, bootvar_binary_size.
  rewrite load_store by (rewrite length_store; lia). reflexivity.
Qed.

Lemma inspect32_Ok verb S sec d p d' :
  (12 <= p)%nat ->
  inspect32 verb S sec d p = Ok d' ->
  exists sh m f c,
    section_header (binary_span S p d) ".multiboot" = Some sh /\
    let mb := (p + sp_off (section_data (binary_span S p d) sh))%nat in
    load 4 mb d = Some m /\ load 4 (mb + 4) d = Some f /\
    load 4 (mb + 8) d = Some c /\
    m = MULTIBOOT_HEADER_MAGIC /\ (m + f + c) mod 2 ^ 32 = 0 /\
    d' = patch sec (entry (binary_span S p d)) d.
Proof.
  intros Hp H. unfold inspect32 in H.
  apply bind_Ok in H as (sh & Hsh & H).
  destruct (section_header _ _) as [sh0|] eqn:Es; [|discriminate].
  injection Hsh as ->.
  apply bind_Ok in H as (m & Hm & H). apply deref_Ok in Hm.
  case_bool_decide as Em; [discriminate|].
  apply bind_Ok in H as (f & Hf & H). apply deref_Ok in Hf.
  apply bind_Ok in H as (c & Hc & H). apply deref_Ok in Hc.
  case_bool_decide as Ec; [discriminate|].
  apply bind_Ok in H as (x & _ & H). injection H as <-.
  exists sh, m, f, c. cbn zeta.
  rewrite to_uint32_sum in Ec.
  unfold bootvar_binary_size. rewrite binary_span_store by lia.
  repeat split; assumption.
Qed.

Lemma inspect64_Ok sec d p d' :
  inspect64 sec d p = Ok d' ->
  exists e, load 8 (p + Elf64_e_entry_off) d = Some e /\
            d' = patch (to_uint32 sec) (to_uint32 e) d.
Proof.
  intros H. unfold inspect64 in H.
  apply bind_Ok in H as (e & He & H). apply deref_Ok in He.
  injection H as <-. eauto.
Qed.

Lemma inspect_Ok verb S sec d d' :
  inspect verb S sec d = Ok d' ->
  has_magic d 512 /\
  ((d !! 516%nat = Some ELFCLASS32 /\ inspect32 verb S sec d 512 = Ok d') \/
   (d !! 516%nat = Some ELFCLASS64 /\ inspect64 sec d 512 = Ok d')).
Proof.
  intros H. unfold inspect in H. change (Z.to_nat SECT_SIZE) with 512%nat in H.
  apply bind_Ok in H as ([|] & Hm & H); [|discriminate].
  apply is_ELF_true in Hm. split; [assumption|].
  apply bind_Ok in H as ([|] & H32 & H).
  - left. split; [|assumption]. now apply byte_is_true in H32.
  - apply bind_Ok in H as ([|] & H64 & H); [|discriminate].
    right. split; [|assumption]. now apply byte_is_true in H64.
Qed.

(** What every successful inspection does to the disk: two patches. *)
Lemma inspect_patch verb S sec d d' :
  inspect verb S sec d = Ok d' ->
  exists e, d' = patch (sec mod 2 ^ 32) e d.
Proof.
  intros H. apply inspect_Ok in H as (_ & [(_ & H)|(_ & H)]).
  - apply inspect32_Ok in H as (sh & m & f & c & _ & _ & _ & _ & _ & _ & ->); [|lia].
    exists (entry (binary_span S 512 d)). unfold patch, store.
    do 2 f_equal.
    symmetry. apply (le_bytes_mod 4 sec).
  - apply inspect64_Ok in H as (e & _ & ->). now exists (to_uint32 e).
Qed.

End InspectProps.

(** ** The test pattern *)

Lemma test_loop_frame (l : list Z) (d : list byte) :
  let d' := foldl (fun d i => <[Z.to_nat (512 + i) := byte_of_Z (Z.rem i 256)]> d) d l in
  (forall i, i ∈ l -> 0 <= i) ->
  length d' = length d /\ forall j, (j < 512)%nat -> d' !! j = d !! j.
Proof.
  cbn zeta. revert d. induction l as [|i l IH]; intros d Hl; [now split|].
  cbn [foldl].
  destruct (IH (<[Z.to_nat (512 + i) := byte_of_Z (Z.rem i 256)]> d)) as [IH1 IH2].
  { intros k Hk. apply Hl. now right. }
  assert (0 <= i) by (apply Hl; left).
  split.
  - now rewrite IH1, length_insert.
  - intros j Hj. rewrite IH2 by assumption.
    apply list_lookup_insert_ne. lia.
Qed.

Lemma test_fill_Ok (n : Z) (d d' : list byte) :
  test_fill n d = Ok d' ->
  length d' = length d /\ forall j, (j < 512)%nat -> d' !! j = d !! j.
Proof.
  unfold test_fill. case_bool_decide; [|discriminate].
  intros [= <-]. apply test_loop_frame.
  intros i Hi. apply elem_of_seqZ in Hi. lia.
Qed.

(** ** Loading *)

Lemma get_bootloader_path_arg (w : World) (argv : list string) :
  2 < argc argv -> get_bootloader_path w argv = Some (arg 2 argv).
Proof.
  intros H. unfold get_bootloader_path.
  rewrite bool_decide_eq_false_2 by lia. reflexivity.
Qed.

Lemma load_inputs_Ok (argv : list string) (w : World) (st : Loaded) :
  load_inputs argv w = Ok st ->
  2 < argc argv /\
  exists boot binary,
    fs w !! arg 2 argv = Some boot /\ Z.of_N (st_size boot) = 512 /\
    fs w !! arg 1 argv = Some binary /\
    img_size_bytes_of (Z.of_N (st_size binary)) <= INTMAX_MAX /\
    st = loaded argv w boot binary.
Proof.
  unfold load_inputs. case_bool_decide as Hc; [discriminate|].
  rewrite get_bootloader_path_arg by lia. cbn.
  destruct (fs w !! arg 2 argv) as [boot|] eqn:Eb; [|discriminate].
  case_bool_decide as Hs; [discriminate|].
  destruct (fs w !! arg 1 argv) as [binary|] eqn:Es; [|discriminate].
  case_bool_decide as Ho; [discriminate|].
  case_bool_decide as Ha; [discriminate|].
  destruct (can_allocate w _); cbn [negb]; [|discriminate].
  intros [= <-]. split; [lia|]. exists boot, binary.
  unfold SECT_SIZE in Hs. repeat split; try reflexivity; lia.
Qed.

Lemma load_inputs_loaded (argv : list string) (w : World) (boot binary : file) :
  2 < argc argv ->
  fs w !! arg 2 argv = Some boot -> Z.of_N (st_size boot) = 512 ->
  fs w !! arg 1 argv = Some binary ->
  img_size_bytes_of (Z.of_N (st_size binary)) <= INTMAX_MAX ->
  can_allocate w (img_size_bytes_of (Z.of_N (st_size binary))) = true ->
  load_inputs argv w = Ok (loaded argv w boot binary).
Proof.
  intros Hc Eb Hs Es Ho Hal. unfold load_inputs.
  rewrite bool_decide_eq_false_2 by lia.
  rewrite get_bootloader_path_arg by lia. cbn.
  rewrite Eb. rewrite bool_decide_eq_false_2 by (unfold SECT_SIZE; lia).
  rewrite Es. rewrite bool_decide_eq_false_2 by lia.
  rewrite bool_decide_eq_false_2; [now rewrite Hal|].
  rewrite img_size_bytes_aligned by lia. tauto.
Qed.

Section AssembleProps.
Context `{EB : Elf_binary}.

Lemma assemble_Ok (argv : list string) (w : World) (a : Assembled) :
  assemble argv w = Ok a ->
  exists st d1,
    load_inputs argv w = Ok st /\
    inspect (ld_verb st) (ld_st_binary st) (ld_binary_sectors st) (ld_disk st) = Ok d1 /\
    (if ld_test st then test_fill (ld_img_size_bytes st) d1 else Ok d1) = Ok (disk a) /\
    img_name a = ld_img_name st /\ disk_size a = ld_img_size_bytes st.
Proof.
  unfold assemble. intros H.
  apply bind_Ok in H as (st & Hst & H).
  apply bind_Ok in H as (d1 & Hd1 & H).
  apply bind_Ok in H as (d2 & Hd2 & H).
  injection H as <-. cbn. exists st, d1. auto.
Qed.

(** An assembled image is the inspected disk, with the pattern after the
    first sector in test mode. *)
Lemma assemble_image (argv : list string) (w : World) (a : Assembled) :
  assemble argv w = Ok a ->
  exists boot binary d1,
    2 < argc argv /\
    fs w !! arg 2 argv = Some boot /\ Z.of_N (st_size boot) = 512 /\
    fs w !! arg 1 argv = Some binary /\
    let S := Z.of_N (st_size binary) in
    let d := load_disk boot binary (img_size_bytes_of S) in
    img_size_bytes_of S <= INTMAX_MAX /\
    img_name a = img_name_of (arg 1 argv) /\
    disk_size a = img_size_bytes_of S /\
    inspect (verb_of w argv) S (binary_sectors_of S) d = Ok d1 /\
    length (disk a) = Z.to_nat (img_size_bytes_of S) /\
    forall j, (j < 512)%nat -> disk a !! j = d1 !! j.
Proof.
  intros H. apply assemble_Ok in H as (st & d1 & Hst & Hd1 & Hd2 & Hn & Hz).
  apply load_inputs_Ok in Hst as (Hc & boot & binary & Eb & Hs & Es & Ho & ->).
  cbn in Hd1, Hd2, Hn, Hz.
  exists boot, binary, d1. cbn zeta.
  destruct (inspect_patch _ _ _ _ _ Hd1) as (e & Hp).
  repeat split; try assumption.
  - destruct (test_of argv).
    + apply test_fill_Ok in Hd2 as [-> _].
      now rewrite Hp, length_patch, length_load_disk.
    + injection Hd2 as <-. now rewrite Hp, length_patch, length_load_disk.
  - intros j Hj. destruct (test_of argv).
    + apply test_fill_Ok in Hd2 as [_ ->]; [reflexivity|assumption].
    + now injection Hd2 as <-.
Qed.

(** A disk that passes the inspection has a service sector. *)
Lemma inspected_size (verb : bool) (boot binary : file) (d1 : list byte) :
  let S := Z.of_N (st_size binary) in
  inspect verb S (binary_sectors_of S) (load_disk boot binary (img_size_bytes_of S)) = Ok d1 ->
  1 <= S /\ 1024 <= img_size_bytes_of S.
Proof.
  cbn zeta. intros H. apply inspect_Ok in H as ((H0 & _) & _).
  apply lookup_lt_Some in H0. rewrite length_load_disk in H0.
  unfold EI_MAG0 in H0.
  rewrite img_size_bytes_ceil in * by lia.
  pose proof (ceil_div_covers (Z.of_N (st_size binary)) ltac:(lia)).
  lia.
Qed.

End AssembleProps.

(** ** The service inside the disk *)

Lemma le_val_take_ext (n : nat) (l1 l2 : list byte) :
  (forall i, (i < n)%nat -> default x00 (l1 !! i) = default x00 (l2 !! i)) ->
  le_val (take n l1) = le_val (take n l2).
Proof.
  revert l1 l2. induction n as [|n IH]; intros l1 l2 H; [reflexivity|].
  assert (H0 := H 0%nat ltac:(lia)).
  assert (Ht : forall l1' l2',
             (forall i, (i < n)%nat -> default x00 (l1' !! i) = default x00 (l2' !! i)) ->
             le_val (take n l1') = le_val (take n l2')) by (intros; now apply IH).
  destruct l1 as [|b1 l1], l2 as [|b2 l2]; cbn in H0; cbn [take le_val].
  - reflexivity.
  - subst b2. rewrite <- (Ht [] l2); [now rewrite take_nil|].
    intros i Hi. apply (H (S i)). lia.
  - subst b1. rewrite (Ht l1 []); [now rewrite take_nil|].
    intros i Hi. apply (H (S i)). lia.
  - subst b2. f_equal. f_equal. apply Ht.
    intros i Hi. apply (H (S i)). lia.
Qed.

Lemma length_service_image (binary : file) :
  length (service_image binary) = N.to_nat (st_size binary).
Proof.
  unfold service_image.
  pose proof (length_read_bytes binary (Z.of_N (st_size binary))).
  rewrite length_app, length_replicate. lia.
Qed.

Lemma lookup_service_image (binary : file) (j : nat) :
  default x00 (service_image binary !! j)
  = default x00 (read_bytes binary (Z.of_N (st_size binary)) !! j).
Proof.
  unfold service_image.
  set (r := read_bytes binary (Z.of_N (st_size binary))).
  destruct (decide (j < length r)%nat) as [H|H].
  - now rewrite lookup_app_l by lia.
  - rewrite lookup_app_r by lia.
    rewrite (proj2 (lookup_ge_None r j)) by lia.
    destruct (replicate _ _ !! _) as [b|] eqn:E; [|reflexivity].
    apply lookup_replicate in E as [-> _]. reflexivity.
Qed.

Lemma service_image_complete (binary : file) :
  length (content binary) = N.to_nat (st_size binary) ->
  service_image binary = content binary.
Proof.
  intros H. unfold service_image, read_bytes.
  rewrite take_ge by lia.
  replace (N.to_nat (st_size binary) - length (content binary))%nat with 0%nat by lia.
  apply app_nil_r.
Qed.

(** The disk after loading, seen from the service's side. *)
Lemma lookup_load_disk_image (boot binary : file) (n : Z) (j : nat) :
  Z.of_N (st_size boot) = 512 ->
  512 + Z.of_N (st_size binary) <= n ->
  (512 + j < Z.to_nat n)%nat ->
  load_disk boot binary n !! (512 + j)%nat = Some (default x00 (service_image binary !! j)).
Proof.
  intros Hb Hn Hj. rewrite lookup_load_disk_binary by assumption.
  now rewrite lookup_service_image.
Qed.

Lemma binary_span_load_disk (boot binary : file) (n : Z) :
  Z.of_N (st_size boot) = 512 ->
  512 + Z.of_N (st_size binary) <= n ->
  binary_span (Z.of_N (st_size binary)) 512 (load_disk boot binary n)
  = service_image binary.
Proof.
  intros Hb Hn. unfold binary_span. apply list_eq. intros j.
  destruct (decide (j < N.to_nat (st_size binary))%nat) as [H|H].
  - rewrite lookup_take_lt, lookup_drop by lia.
    rewrite lookup_load_disk_image by lia.
    destruct (lookup_lt_is_Some_2 (service_image binary) j) as [b ->];
      [rewrite length_service_image; lia | reflexivity].
  - rewrite lookup_take_ge by lia. symmetry. apply lookup_ge_None.
    rewrite length_service_image. lia.
Qed.

(** A class byte other than zero on the disk is a byte of the service. *)
Lemma class_byte_image (boot binary : file) (n : Z) (c : byte) :
  Z.of_N (st_size boot) = 512 ->
  512 + Z.of_N (st_size binary) <= n -> 1024 <= n ->
  c <> x00 ->
  load_disk boot binary n !! 516%nat = Some c ->
  service_image binary !! EI_CLASS = Some c.
Proof.
  intros Hb Hn Hk Hc H.
  change 516%nat with (512 + 4)%nat in H.
  rewrite lookup_load_disk_image in H by lia.
  unfold EI_CLASS. destruct (service_image binary !! 4%nat) as [b|]; cbn in H; congruence.
Qed.

Lemma load_entry64_image (boot binary : file) (n : Z) :
  Z.of_N (st_size boot) = 512 ->
  512 + Z.of_N (st_size binary) <= n -> 1024 <= n ->
  load 8 (512 + Elf64_e_entry_off) (load_disk boot binary n)
  = Some (Elf64_e_entry (service_image binary)).
Proof.
  intros Hb Hn Hk.
  rewrite load_is_Some by (rewrite length_load_disk; unfold Elf64_e_entry_off; lia).
  f_equal. unfold Elf64_e_entry. apply le_val_take_ext.
  intros i Hi. rewrite !lookup_drop. unfold Elf64_e_entry_off.
  replace (512 + 24 + i)%nat with (512 + (24 + i))%nat by lia.
  rewrite lookup_load_disk_image by lia. reflexivity.
Qed.

Section SuccessProps.
Context `{EB : Elf_binary}.

(** A byte of the service that was read is at its place on the disk. *)
Lemma lookup_load_disk_content (boot binary : file) (n : Z) (j : nat) (b : byte) :
  Z.of_N (st_size boot) = 512 ->
  512 + Z.of_N (st_size binary) <= n ->
  (j < N.to_nat (st_size binary))%nat ->
  content binary !! j = Some b ->
  load_disk boot binary n !! (512 + j)%nat = Some b.
Proof.
  intros Hb Hn Hj Hc.
  rewrite lookup_load_disk_binary by lia.
  rewrite lookup_read_bytes by lia. now rewrite Hc.
Qed.

(** The sector count as it is found in an assembled image. *)
Lemma assembled_sectors (argv : list string) (w : World) (a : Assembled)
    (binary : file) :
  assemble argv w = Ok a ->
  fs w !! arg 1 argv = Some binary ->
  load 4 bootvar_binary_size (disk a)
    = Some (ceil_div (Z.of_N (st_size binary)) 512 mod 2 ^ 32).
Proof.
  intros Ha Es.
  apply assemble_image in Ha
    as (boot & binary' & d1 & Hc & Eb & Hs & Es' & Ho & Hn & Hz & Hi & Hl & Hj).
  rewrite Es in Es'. injection Es' as <-.
  pose proof (inspected_size _ _ _ _ Hi) as [HS Hk].
  destruct (inspect_patch _ _ _ _ _ Hi) as (e & ->).
  rewrite (load_ext _ _ (disk a) (patch (binary_sectors_of (Z.of_N (st_size binary)) mod 2 ^ 32) e
      (load_disk boot binary (img_size_bytes_of (Z.of_N (st_size binary)))))).
  - rewrite load_patch_sectors by (rewrite length_load_disk; lia).
    rewrite binary_sectors_ceil by lia.
    now rewrite Z.mod_mod by lia.
  - intros j Hj'. apply Hj. unfold bootvar_binary_size in Hj'. lia.
Qed.

(** A 64-bit service of at least five bytes is assembled, outside of
    test mode, whatever follows its class byte. *)
Lemma assemble_elf64 (argv : list string) (w : World) (boot binary : file) :
  2 < argc argv ->
  fs w !! arg 2 argv = Some boot -> Z.of_N (st_size boot) = 512 ->
  fs w !! arg 1 argv = Some binary ->
  5 <= Z.of_N (st_size binary) ->
  img_size_bytes_of (Z.of_N (st_size binary)) <= INTMAX_MAX ->
  can_allocate w (img_size_bytes_of (Z.of_N (st_size binary))) = true ->
  take 5 (content binary) = [ELFMAG0; ELFMAG1; ELFMAG2; ELFMAG3; ELFCLASS64] ->
  test_of argv = false ->
  exists a, assemble argv w = Ok a.
Proof.
  intros Hc Eb Hs Es HS Ho Hal Hm Ht.
  unfold assemble. rewrite (load_inputs_loaded argv w boot binary) by assumption.
  cbn [mbind result_bind loaded ld_verb ld_st_binary ld_binary_sectors ld_disk
       ld_test ld_img_size_bytes ld_img_name].
  rewrite Ht.
  set (S := Z.of_N (st_size binary)) in *.
  set (d := load_disk boot binary (img_size_bytes_of S)).
  pose proof (img_size_bytes_ceil S ltac:(lia)) as Hsz.
  pose proof (ceil_div_covers S ltac:(lia)) as Hcov.
  assert (Hby : forall j b, (j < 5)%nat ->
            [ELFMAG0; ELFMAG1; ELFMAG2; ELFMAG3; ELFCLASS64] !! j = Some b ->
            d !! (512 + j)%nat = Some b).
  { intros j b Hj Hb. apply lookup_load_disk_content; try lia.
    rewrite <- Hm in Hb. now rewrite lookup_take_lt in Hb by lia. }
  assert (Hmag : has_magic d 512).
  { unfold has_magic, EI_MAG0, EI_MAG1, EI_MAG2, EI_MAG3.
    repeat split; apply Hby; (lia || reflexivity). }
  assert (Hcl : d !! (512 + EI_CLASS)%nat = Some ELFCLASS64)
    by (apply Hby; [unfold EI_CLASS; lia | reflexivity]).
  unfold inspect. change (Z.to_nat SECT_SIZE) with 512%nat.
  rewrite (is_ELF_magic _ _ Hmag).
  cbn [mbind result_bind].
  rewrite (byte_is_lookup _ _ _ _ _ Hcl).
  change (Byte.eqb ELFCLASS64 ELFCLASS32) with false.
  cbn [mbind result_bind].
  rewrite (byte_is_lookup _ _ _ _ _ Hcl), byte_eqb_refl.
  cbn [mbind result_bind]. unfold inspect64.
  rewrite load_is_Some
    by (subst d; rewrite length_load_disk; unfold Elf64_e_entry_off; lia).
  cbn [deref mbind result_bind]. eauto.
Qed.

End SuccessProps.

Section FailureProps.
Context `{EB : Elf_binary}.

Lemma inspect_class32 verb S sec d :
  has_magic d 512 -> d !! 516%nat = Some ELFCLASS32 ->
  inspect verb S sec d = inspect32 verb S sec d 512.
Proof.
  intros Hm Hc. unfold inspect. change (Z.to_nat SECT_SIZE) with 512%nat.
  rewrite (is_ELF_magic _ _ Hm). cbn [mbind result_bind].
  rewrite (byte_is_lookup d 512 EI_CLASS ELFCLASS32 ELFCLASS32 Hc), byte_eqb_refl.
  reflexivity.
Qed.

Lemma inspect32_magic verb S sec d sh m :
  section_header (binary_span S 512 d) ".multiboot" = Some sh ->
  load 4 (multiboot_ptr S d sh) d = Some m ->
  m <> MULTIBOOT_HEADER_MAGIC ->
  inspect32 verb S sec d 512 = Stop (Terminate Assert_magic).
Proof.
  intros Hsh Hm Hne. unfold inspect32, multiboot_ptr in *.
  rewrite Hsh. cbn [mbind result_bind]. rewrite Hm. cbn [deref mbind result_bind].
  now rewrite bool_decide_eq_true_2.
Qed.

Lemma inspect32_checksum verb S sec d sh m f c :
  section_header (binary_span S 512 d) ".multiboot" = Some sh ->
  load 4 (multiboot_ptr S d sh) d = Some m ->
  load 4 (multiboot_ptr S d sh + 4) d = Some f ->
  load 4 (multiboot_ptr S d sh + 8) d = Some c ->
  (m + f + c) mod 2 ^ 32 <> 0 ->
  exists ab, inspect32 verb S sec d 512 = Stop (Terminate ab) /\
             (ab = Assert_magic \/ ab = Assert_checksum).
Proof.
  intros Hsh Hm Hf Hc Hne.
  destruct (decide (m = MULTIBOOT_HEADER_MAGIC)) as [E|E].
  - exists Assert_checksum. split; [|now right].
    unfold inspect32, multiboot_ptr in *.
    rewrite Hsh. cbn [mbind result_bind]. rewrite Hm. cbn [deref mbind result_bind].
    rewrite bool_decide_eq_false_2 by tauto.
    rewrite Hf. cbn [deref mbind result_bind]. rewrite Hc. cbn [deref mbind result_bind].
    rewrite to_uint32_sum. now rewrite bool_decide_eq_true_2.
  - exists Assert_magic. split; [|now left].
    now apply (inspect32_magic verb S sec d sh m).
Qed.

(** Every failed validation ends the inspection with an abort. *)
Lemma inspect_validation_fails verb S sec d :
  validation_fails S d -> exists ab, inspect verb S sec d = Stop (Terminate ab).
Proof.
  intros [b0 b1 b2 b3 H0 H1 H2 H3 Hne | c Hm Hc H32 H64 | Hm Hc Hsh
         | sh m Hm Hc Hsh Hl Hne | sh m f c Hm Hc Hsh Hl Hf Hk Hne].
  - exists Not_ELF. unfold inspect. change (Z.to_nat SECT_SIZE) with 512%nat.
    now rewrite (is_ELF_mismatch d 512 b0 b1 b2 b3).
  - exists Unknown_ELF. unfold inspect. change (Z.to_nat SECT_SIZE) with 512%nat.
    rewrite (is_ELF_magic _ _ Hm). cbn [mbind result_bind].
    rewrite (byte_is_lookup d 512 EI_CLASS _ _ Hc), byte_eqb_neq by assumption.
    cbn [mbind result_bind].
    rewrite (byte_is_lookup d 512 EI_CLASS _ _ Hc), byte_eqb_neq by assumption.
    reflexivity.
  - exists No_section. rewrite inspect_class32 by assumption.
    unfold inspect32. now rewrite Hsh.
  - exists Assert_magic. rewrite inspect_class32 by assumption.
    now apply (inspect32_magic verb S sec d sh m).
  - rewrite inspect_class32 by assumption.
    destruct (inspect32_checksum verb S sec d sh m f c) as (ab & -> & _); eauto.
Qed.

(** An inspection that stops ends the run, and the files are as before. *)
Lemma main_inspect_Stop argv w st o :
  load_inputs argv w = Ok st ->
  inspect (ld_verb st) (ld_st_binary st) (ld_binary_sectors st) (ld_disk st) = Stop o ->
  main argv w = (o, fs w).
Proof.
  intros Hst Hi. unfold main, assemble. rewrite Hst. cbn [mbind result_bind].
  now rewrite Hi.
Qed.

(** Only a run that ends with status 0 touches the file system. *)
Lemma main_frame argv w :
  fst (main argv w) <> Exit EXIT_SUCCESS -> snd (main argv w) = fs w.
Proof.
  unfold main. destruct (assemble argv w) as [a|o]; [|reflexivity].
  unfold write_image. destruct (fopen_w w (img_name a)); [|reflexivity].
  cbn. congruence.
Qed.

End FailureProps.


(** ** Exit statuses *)

Lemma no_exit_Ok {A} (a : A) : no_exit (Ok a).
Proof. intros z. discriminate. Qed.

Lemma no_exit_deref {A} (o : option A) : no_exit (deref o).
Proof. intros z. destruct o; discriminate. Qed.

Lemma no_exit_bind {A B} (r : result A) (k : A -> result B) :
  no_exit r -> (forall a, no_exit (k a)) -> no_exit (r ≫= k).
Proof.
  intros Hr Hk z. destruct r as [a|o]; cbn.
  - apply Hk.
  - intros [= ->]. now apply (Hr z).
Qed.

Lemma no_exit_byte_is d p i c : no_exit (byte_is d p i c).
Proof.
  unfold byte_is. apply no_exit_bind; [apply no_exit_deref|].
  intros a. apply no_exit_Ok.
Qed.

Lemma no_exit_is_ELF d p : no_exit (is_ELF d p).
Proof.
  unfold is_ELF.
  repeat (apply no_exit_bind; [apply no_exit_byte_is|]; intros [|];
          try apply no_exit_Ok).
  apply no_exit_byte_is.
Qed.

Section ExitProps.
Context `{EB : Elf_binary}.

Lemma no_exit_inspect verb S sec d : no_exit (inspect verb S sec d).
Proof.
  unfold inspect.
  apply no_exit_bind; [apply no_exit_is_ELF|]. intros [|]; [|discriminate].
  apply no_exit_bind; [apply no_exit_byte_is|]. intros [|].
  - unfold inspect32.
    apply no_exit_bind; [destruct (section_header _ _); discriminate|]. intros sh.
    apply no_exit_bind; [apply no_exit_deref|]. intros m.
    case_bool_decide; [discriminate|].
    apply no_exit_bind; [apply no_exit_deref|]. intros f.
    apply no_exit_bind; [apply no_exit_deref|]. intros c.
    case_bool_decide; [discriminate|].
    apply no_exit_bind; [destruct verb; [apply no_exit_deref|apply no_exit_Ok]|].
    intros _. apply no_exit_Ok.
  - apply no_exit_bind; [apply no_exit_byte_is|]. intros [|]; [|discriminate].
    unfold inspect64.
    apply no_exit_bind; [apply no_exit_deref|]. intros e. apply no_exit_Ok.
Qed.

Lemma no_exit_test_fill n d : no_exit (test_fill n d).
Proof. unfold test_fill. case_bool_decide; discriminate. Qed.

(** A status other than 0 is decided before the files are read. *)
Lemma main_Exit argv w z :
  fst (main argv w) = Exit z -> z <> EXIT_SUCCESS ->
  load_inputs argv w = Stop (Exit z).
Proof.
  unfold main, assemble. intros H Hz.
  destruct (load_inputs argv w) as [st|o]; cbn [mbind result_bind] in H.
  - exfalso.
    destruct (inspect _ _ _ _) as [d1|o] eqn:Hi; cbn [mbind result_bind] in H.
    + destruct (if ld_test st then test_fill _ _ else Ok d1) as [d2|o] eqn:Ht;
        cbn [mbind result_bind] in H.
      * unfold write_image in H. cbn in H.
        destruct (fopen_w w (ld_img_name st)); cbn in H; congruence.
      * cbn in H. subst o.
        destruct (ld_test st); [now apply no_exit_test_fill in Ht|discriminate].
    + cbn in H. subst o. now apply no_exit_inspect in Hi.
  - cbn in H. now subst o.
Qed.

End ExitProps.


(** ** Partial reads *)

Lemma read_bytes_zero_padded (f : file) :
  read_bytes (zero_padded f) (Z.of_N (st_size (zero_padded f))) = service_image f.
Proof.
  unfold read_bytes. cbn [zero_padded st_size content].
  apply take_ge. rewrite length_service_image. lia.
Qed.

Lemma load_disk_zero_padded (boot binary : file) (n : Z) :
  Z.of_N (st_size boot) = 512 ->
  512 + Z.of_N (st_size binary) <= n ->
  load_disk (zero_padded boot) (zero_padded binary) n = load_disk boot binary n.
Proof.
  intros Hb Hn. apply list_eq. intros i.
  destruct (decide (i < 512)%nat) as [Hi|Hi].
  - rewrite !lookup_load_disk_boot by (assumption || lia). f_equal.
    cbn [zero_padded content]. rewrite lookup_service_image.
    now rewrite lookup_read_bytes by lia.
  - destruct (decide (i < Z.to_nat n)%nat) as [Hl|Hl].
    + replace i with (512 + (i - 512))%nat by lia.
      rewrite !lookup_load_disk_binary by (assumption || lia). f_equal.
      rewrite read_bytes_zero_padded. apply lookup_service_image.
    + rewrite !(proj2 (lookup_ge_None _ _)) by (rewrite length_load_disk; lia).
      reflexivity.
Qed.

Lemma load_inputs_complete_reads (argv : list string) (w : World) :
  load_inputs argv (complete_reads w) = load_inputs argv w.
Proof.
  unfold load_inputs. case_bool_decide as Hc; [reflexivity|].
  rewrite !get_bootloader_path_arg by lia. cbn [deref mbind result_bind].
  cbn [complete_reads fs errno]. rewrite !lookup_fmap.
  destruct (fs w !! arg 2 argv) as [boot|]; [|reflexivity]. cbn [fmap option_fmap option_map].
  cbn [zero_padded st_size].
  case_bool_decide as Hs; [reflexivity|].
  destruct (fs w !! arg 1 argv) as [binary|]; [|reflexivity]. cbn [fmap option_fmap option_map].
  cbn [zero_padded st_size].
  case_bool_decide as Ho; [reflexivity|].
  case_bool_decide as Ha; [reflexivity|].
  cbn [complete_reads can_allocate].
  destruct (can_allocate w _); cbn [negb]; [|reflexivity].
  f_equal. f_equal.
  unfold SECT_SIZE in Hs.
  pose proof (img_size_bytes_ceil (Z.of_N (st_size binary)) ltac:(lia)) as Hsz.
  pose proof (ceil_div_covers (Z.of_N (st_size binary)) ltac:(lia)) as Hcov.
  apply (load_disk_zero_padded boot binary); lia.
Qed.


(** * The claims *)

Section Claims.
Context `{EB : Elf_binary}.

(** C1, as amended: when an image is assembled, the boot sector has exactly 512
    bytes and, for a service of size [S], the disk buffer has exactly
    [512 * (1 + ceil(S/512))] bytes, a multiple of 512; this is also the
    size handed to [fwrite], and the size of the file written when the
    stream opens and the write is not cut short. *)
Theorem image_size (argv : list string) (w : World) (a : Assembled)
    (boot binary : file) :
  assemble argv w = Ok a ->
  fs w !! arg 2 argv = Some boot ->
  fs w !! arg 1 argv = Some binary ->
  let size := 512 * (1 + ceil_div (Z.of_N (st_size binary)) 512) in
  Z.of_N (st_size boot) = 512 /\
  Z.of_nat (length (disk a)) = size /\
  disk_size a = size /\
  size mod 512 = 0 /\
  (fopen_w w (img_name a) = true -> (Z.to_N size <= fwrite_room w)%N ->
   exists f, main argv w = (Exit EXIT_SUCCESS, <[img_name a := f]> (fs w)) /\
             content f = disk a /\ Z.of_N (st_size f) = size).
Proof.
  intros Ha Eb Es. cbn zeta.
  pose proof Ha as H.
  apply assemble_image in H
    as (boot' & binary' & d1 & Hc & Eb' & Hs & Es' & Ho & Hn & Hz & Hi & Hl & _).
  rewrite Eb in Eb'. injection Eb' as <-.
  rewrite Es in Es'. injection Es' as <-.
  rewrite img_size_bytes_ceil in * by lia.
  pose proof (ceil_div_nonneg (Z.of_N (st_size binary)) ltac:(lia)) as Hq.
  split; [assumption|]. split; [lia|]. split; [assumption|].
  split; [rewrite Z.mul_comm; apply Z.mod_mul; lia|].
  intros Hf Hr. unfold main. rewrite Ha. unfold write_image. rewrite Hf.
  eexists. split; [reflexivity|]. cbn [content st_size].
  rewrite Hz, N.min_l by assumption. split; [|lia].
  apply take_ge. lia.
Qed.

(** C2, as amended: the field at offset 4 of an assembled image holds
    [ceil(S/512)] reduced modulo 2^32, and so [ceil(S/512)] itself
    whenever that count fits 32 bits; [ceil(S/512)] is the number of
    sectors of the image minus one. *)
Theorem sector_count_field (argv : list string) (w : World) (a : Assembled)
    (binary : file) :
  assemble argv w = Ok a ->
  fs w !! arg 1 argv = Some binary ->
  let sectors := ceil_div (Z.of_N (st_size binary)) 512 in
  load 4 bootvar_binary_size (disk a) = Some (sectors mod 2 ^ 32) /\
  (sectors < 2 ^ 32 -> load 4 bootvar_binary_size (disk a) = Some sectors) /\
  sectors = disk_size a / 512 - 1.
Proof.
  intros Ha Es. cbn zeta.
  pose proof (assembled_sectors argv w a binary Ha Es) as E.
  split; [assumption|]. split.
  - intros Hlt. rewrite E. f_equal. apply Z.mod_small.
    pose proof (ceil_div_nonneg (Z.of_N (st_size binary)) ltac:(lia)). lia.
  - apply assemble_image in Ha
      as (boot & binary' & d1 & _ & _ & _ & Es' & _ & _ & -> & _).
    rewrite Es in Es'. injection Es' as <-.
    rewrite img_size_bytes_ceil by lia.
    rewrite Z.mul_comm, Z.div_mul by lia. lia.
Qed.

(** C3, as amended: the field at offset 8 of an assembled image holds the entry
    point of the service: the 32-bit entry of [Elf_binary] for a binary
    of class ELF32, and the 64-bit entry field reduced modulo 2^32 for a
    binary of class ELF64.  The service is taken as it lies in the
    buffer: the bytes the read delivered, with zeros for those it did
    not.  This is what the file holds when it was read completely; an
    assembled service is of one of the two classes. *)
Theorem entry_point_field (argv : list string) (w : World) (a : Assembled)
    (binary : file) :
  assemble argv w = Ok a ->
  fs w !! arg 1 argv = Some binary ->
  let bin := service_image binary in
  (bin !! EI_CLASS = Some ELFCLASS32 \/ bin !! EI_CLASS = Some ELFCLASS64) /\
  (bin !! EI_CLASS = Some ELFCLASS32 ->
   load 4 bootvar_binary_location (disk a) = Some (entry bin)) /\
  (bin !! EI_CLASS = Some ELFCLASS64 ->
   load 4 bootvar_binary_location (disk a) = Some (Elf64_e_entry bin mod 2 ^ 32)) /\
  (length (content binary) = N.to_nat (st_size binary) -> bin = content binary) /\
  (read_completely binary -> bin = data binary).
Proof.
  intros Ha Es. cbn zeta.
  apply assemble_image in Ha
    as (boot & binary' & d1 & Hc & Eb & Hs & Es' & Ho & Hn & Hz & Hi & Hl & Hj).
  rewrite Es in Es'. injection Es' as <-.
  pose proof (inspected_size _ _ _ _ Hi) as [HS Hk].
  set (S := Z.of_N (st_size binary)) in *.
  pose proof (img_size_bytes_ceil S ltac:(lia)) as Hsz.
  pose proof (ceil_div_covers S ltac:(lia)) as Hcov.
  assert (Hld : load 4 bootvar_binary_location (disk a) = load 4 bootvar_binary_location d1).
  { apply load_ext. intros j Hj'. apply Hj. unfold bootvar_binary_location in Hj'. lia. }
  apply inspect_Ok in Hi as (_ & [(Hcl & Hi)|(Hcl & Hi)]).
  - apply class_byte_image in Hcl; [|lia..|discriminate].
    apply inspect32_Ok in Hi as (sh & m & f & c & _ & _ & _ & _ & _ & _ & ->); [|lia].
    rewrite load_patch_entry in Hld by (rewrite length_load_disk; lia).
    subst S. rewrite binary_span_load_disk in Hld by lia.
    rewrite Z.mod_small in Hld by apply entry_range.
    split; [now left|]. split; [intros _; exact Hld|].
    split; [rewrite Hcl; discriminate|].
    split; [apply service_image_complete|].
    intros [Hcd Hlen]. rewrite <- Hcd in *. now apply service_image_complete.
  - apply class_byte_image in Hcl; [|lia..|discriminate].
    apply inspect64_Ok in Hi as (e & He & ->).
    rewrite load_patch_entry in Hld by (rewrite length_load_disk; lia).
    subst S. rewrite load_entry64_image in He by lia. injection He as <-.
    unfold to_uint32 in Hld. rewrite Z.mod_mod in Hld by lia.
    split; [now right|]. split; [rewrite Hcl; discriminate|].
    split; [intros _; exact Hld|].
    split; [apply service_image_complete|].
    intros [Hcd Hlen]. rewrite <- Hcd in *. now apply service_image_complete.
Qed.

(** C4: when the loaded service fails a validation (its magic bytes, its
    class byte, the lookup of the [.multiboot] section or the magic and
    checksum of the multiboot header), the run is aborted and the file
    system is what it was: no image is created or written to.  More
    generally, only a run that ends with status 0 changes a file. *)
Theorem no_output_on_failed_validation (argv : list string) (w : World)
    (st : Loaded) :
  load_inputs argv w = Ok st ->
  validation_fails (ld_st_binary st) (ld_disk st) ->
  (exists ab, main argv w = (Terminate ab, fs w)) /\
  (forall argv' w',
     fst (main argv' w') <> Exit EXIT_SUCCESS -> snd (main argv' w') = fs w').
Proof.
  intros Hst Hv. split; [|apply main_frame].
  destruct (inspect_validation_fails (ld_verb st) _ (ld_binary_sectors st) _ Hv)
    as (ab & Hi).
  exists ab. now apply (main_inspect_Stop argv w st).
Qed.

(** C5: for a 32-bit service whose multiboot header reads [m], [f], [c]
    in its first three fields, a violation of [m = 0x1BADB002] or of
    [(m + f + c) mod 2^32 = 0] aborts the run at one of the two
    assertions, before the boot sector is patched and with the file
    system untouched; so whenever an image is assembled from such a
    service, both equations hold. *)
Theorem multiboot_invariant (argv : list string) (w : World) (st : Loaded)
    (sh : Elf32_Shdr) (m f c : Z) :
  load_inputs argv w = Ok st ->
  let S := ld_st_binary st in
  let d := ld_disk st in
  has_magic d 512 -> d !! 516%nat = Some ELFCLASS32 ->
  section_header (binary_span S 512 d) ".multiboot" = Some sh ->
  load 4 (multiboot_ptr S d sh) d = Some m ->
  load 4 (multiboot_ptr S d sh + 4) d = Some f ->
  load 4 (multiboot_ptr S d sh + 8) d = Some c ->
  (m <> MULTIBOOT_HEADER_MAGIC \/ (m + f + c) mod 2 ^ 32 <> 0 ->
   exists ab, (ab = Assert_magic \/ ab = Assert_checksum) /\
     inspect (ld_verb st) S (ld_binary_sectors st) d = Stop (Terminate ab) /\
     main argv w = (Terminate ab, fs w)) /\
  (forall a, assemble argv w = Ok a ->
     m = MULTIBOOT_HEADER_MAGIC /\ (m + f + c) mod 2 ^ 32 = 0).
Proof.
  intros Hst S d Hm Hc Hsh Hl Hf Hk.
  assert (Hbad : m <> MULTIBOOT_HEADER_MAGIC \/ (m + f + c) mod 2 ^ 32 <> 0 ->
     exists ab, (ab = Assert_magic \/ ab = Assert_checksum) /\
       inspect (ld_verb st) S (ld_binary_sectors st) d = Stop (Terminate ab)).
  { intros Hv. rewrite inspect_class32 by assumption.
    destruct Hv as [Hv|Hv].
    - exists Assert_magic. split; [now left|].
      now apply (inspect32_magic _ S _ d sh m).
    - destruct (inspect32_checksum (ld_verb st) S (ld_binary_sectors st) d sh m f c)
        as (ab & Hi & Hab); auto. eauto. }
  split.
  - intros Hv. destruct (Hbad Hv) as (ab & Hab & Hi).
    exists ab. split; [assumption|]. split; [assumption|].
    now apply (main_inspect_Stop argv w st).
  - intros a Ha.
    apply assemble_Ok in Ha as (st' & d1 & Hst' & Hi & _).
    rewrite Hst in Hst'. injection Hst' as <-.
    destruct (decide (m = MULTIBOOT_HEADER_MAGIC)) as [E1|E1];
      [|destruct Hbad as (ab & _ & Hb); [now left|]; fold S d in Hi; congruence].
    destruct (decide ((m + f + c) mod 2 ^ 32 = 0)) as [E2|E2];
      [|destruct Hbad as (ab & _ & Hb); [now right|]; fold S d in Hi; congruence].
    now split.
Qed.

(** C6: a boot sector whose size is not 512 ends the run with the status
    [SECT_SIZE_ERR] and leaves the file system as it was.  The status is
    666: it is neither the success status, nor the usage failure, nor the
    disk-size code; and in a world whose [errno] values differ from it,
    no other path of [main] returns it. *)
Theorem boot_sector_size_error (argv : list string) (w : World) (boot : file) :
  2 < argc argv ->
  fs w !! arg 2 argv = Some boot ->
  Z.of_N (st_size boot) <> 512 ->
  main argv w = (Exit SECT_SIZE_ERR, fs w) /\
  SECT_SIZE_ERR <> EXIT_SUCCESS /\ SECT_SIZE_ERR <> EXIT_FAILURE /\
  SECT_SIZE_ERR <> DISK_SIZE_ERR /\
  (forall argv' w',
     (forall p, errno w' p <> SECT_SIZE_ERR) ->
     fst (main argv' w') = Exit SECT_SIZE_ERR ->
     exists boot', fs w' !! arg 2 argv' = Some boot' /\
                   Z.of_N (st_size boot') <> 512).
Proof.
  intros Hc Eb Hs. split; [|repeat split; try discriminate].
  - unfold main, assemble, load_inputs.
    rewrite bool_decide_eq_false_2 by lia.
    rewrite get_bootloader_path_arg by lia. cbn [deref mbind result_bind].
    rewrite Eb. now rewrite bool_decide_eq_true_2.
  - intros argv' w' Herr H.
    apply main_Exit in H; [|discriminate].
    unfold load_inputs in H.
    case_bool_decide as Hc'; [discriminate|].
    rewrite get_bootloader_path_arg in H by lia. cbn [deref mbind result_bind] in H.
    destruct (fs w' !! arg 2 argv') as [boot'|] eqn:Eb'.
    + case_bool_decide as Hs'; [eauto|].
      destruct (fs w' !! arg 1 argv') as [binary'|] eqn:Es'.
      * repeat case_bool_decide; try discriminate.
        destruct (can_allocate w' _); discriminate.
      * injection H as H. now apply Herr in H.
    + injection H as H. now apply Herr in H.
Qed.

(** C7, as amended: a partial read is not a failure.  The number of
    bytes read is not compared with the reported size; the bytes that
    were not delivered stay zero, and the build assembles the same image
    and ends with the same outcome as in the world where every file
    delivers as many bytes as [stat] reports, the missing ones being
    zero. *)
Theorem partial_read_undetected (argv : list string) (w : World) :
  assemble argv (complete_reads w) = assemble argv w /\
  fst (main argv (complete_reads w)) = fst (main argv w) /\
  (forall p f, fs (complete_reads w) !! p = Some f ->
     gcount f (Z.of_N (st_size f)) = Z.of_N (st_size f)).
Proof.
  assert (E : assemble argv (complete_reads w) = assemble argv w).
  { unfold assemble. now rewrite load_inputs_complete_reads. }
  split; [assumption|]. split.
  - unfold main. rewrite E. destruct (assemble argv w) as [a|o]; [|reflexivity].
    unfold write_image. cbn [complete_reads fopen_w].
    destruct (fopen_w w (img_name a)); reflexivity.
  - intros p f Hf. cbn [complete_reads fs] in Hf.
    rewrite lookup_fmap in Hf.
    destruct (fs w !! p) as [g|]; [|discriminate]. injection Hf as <-.
    unfold gcount. rewrite read_bytes_zero_padded, length_service_image.
    cbn [zero_padded st_size]. lia.
Qed.

(** C8, as amended: once the destination is open, the run ends with
    status 0 whatever the number of bytes written; a short write leaves
    a file with the bytes that were written, a prefix of the image that
    is shorter than the image, and nothing reports it. *)
Theorem short_write_undetected (argv : list string) (w : World) (a : Assembled) :
  assemble argv w = Ok a ->
  fopen_w w (img_name a) = true ->
  exists f,
    main argv w = (Exit EXIT_SUCCESS, <[img_name a := f]> (fs w)) /\
    content f `prefix_of` disk a /\
    length (content f) = Nat.min (length (disk a)) (N.to_nat (fwrite_room w)) /\
    st_size f = N.of_nat (length (content f)) /\
    ((N.to_nat (fwrite_room w) < length (disk a))%nat ->
     (length (content f) < length (disk a))%nat).
Proof.
  intros Ha Hf. unfold main. rewrite Ha. unfold write_image. rewrite Hf.
  eexists. split; [reflexivity|]. cbn [content st_size].
  apply assemble_image in Ha as (boot & binary & d1 & _ & _ & _ & _ & Ho & _ & Hz & _ & Hl & _).
  rewrite Hz in *. clear Hz.
  pose proof (img_size_bytes_ceil (Z.of_N (st_size binary)) ltac:(lia)) as Hsz.
  pose proof (ceil_div_nonneg (Z.of_N (st_size binary)) ltac:(lia)) as Hq.
  assert (Hlen : length (take (N.to_nat (N.min (Z.to_N (img_size_bytes_of (Z.of_N (st_size binary))))
                                  (fwrite_room w))) (disk a))
                 = Nat.min (length (disk a)) (N.to_nat (fwrite_room w))).
  { rewrite length_take. lia. }
  split; [apply prefix_take|]. split; [exact Hlen|]. split; [|lia].
  rewrite Hlen. lia.
Qed.

(** C9, as amended: in an assembled image, every byte of the first sector
    outside of the two patched fields, at an offset in [0,4) or
    [12,512), is the byte the read of the boot loader delivered there,
    and zero where the read delivered none, also in test mode; so it is
    the byte of the boot loader's file when that was read completely.
    The same holds for that byte of the file written, when the stream
    opens and the write reaches the offset. *)
Theorem boot_sector_frame (argv : list string) (w : World) (a : Assembled)
    (boot : file) (i : nat) :
  assemble argv w = Ok a ->
  fs w !! arg 2 argv = Some boot ->
  (i < 4 \/ 12 <= i < 512)%nat ->
  disk a !! i = Some (default x00 (content boot !! i)) /\
  (forall b, content boot !! i = Some b -> disk a !! i = Some b) /\
  (fopen_w w (img_name a) = true -> (i < N.to_nat (fwrite_room w))%nat ->
   exists f, snd (main argv w) !! img_name a = Some f /\
             content f !! i = Some (default x00 (content boot !! i))) /\
  (read_completely boot -> disk a !! i = data boot !! i).
Proof.
  intros Ha Eb Hi.
  pose proof Ha as H.
  apply assemble_image in H
    as (boot' & binary & d1 & Hc & Eb' & Hs & Es & Ho & Hn & Hz & Hin & Hl & Hj).
  rewrite Eb in Eb'. injection Eb' as <-.
  pose proof (inspected_size _ _ _ _ Hin) as [HS Hk].
  destruct (inspect_patch _ _ _ _ _ Hin) as (e & ->).
  assert (E : disk a !! i = Some (default x00 (content boot !! i))).
  { rewrite Hj by lia. rewrite lookup_patch_outside by lia.
    apply lookup_load_disk_boot; lia. }
  split; [assumption|]. split; [|split].
  - intros b Hb. now rewrite E, Hb.
  - intros Hf Hr. unfold main. rewrite Ha. unfold write_image. rewrite Hf.
    eexists. cbn [snd]. split; [apply lookup_insert_eq|].
    cbn [content]. rewrite lookup_take_lt by lia. exact E.
  - intros [Hcd Hlen]. rewrite E, Hcd.
    destruct (lookup_lt_is_Some_2 (data boot) i) as [b ->]; [lia|reflexivity].
Qed.


End Claims.

(** C2, the claim as it is written fails: a sparse service of 2 TiB
    needs 2^32 sectors, and, on a machine that grants the allocation of
    the disk, the 4-byte field of its image holds 0. *)
Lemma sector_count_field_counterexample :
  exists a,
    can_allocate Sample.huge_world 2199023256064 = true /\
    assemble (EB := Elf32.reader) Sample.argv Sample.huge_world = Ok a /\
    fst (main (EB := Elf32.reader) Sample.argv Sample.huge_world) = Exit EXIT_SUCCESS /\
    fs Sample.huge_world !! arg 1 Sample.argv = Some Sample.huge /\
    ceil_div (Z.of_N (st_size Sample.huge)) 512 = 4294967296 /\
    load 4 bootvar_binary_size (disk a) = Some 0.
Proof.
  destruct (assemble_elf64 (EB := Elf32.reader) Sample.argv Sample.huge_world
              (Sample.whole Sample.bootloader) Sample.huge) as [a Ha].
  - reflexivity.
  - reflexivity.
  - reflexivity.
  - reflexivity.
  - discriminate.
  - change (Z.of_N (st_size Sample.huge)) with 2199023255552. now vm_compute.
  - reflexivity.
  - reflexivity.
  - reflexivity.
  - exists a. split; [reflexivity|]. split; [assumption|]. split.
    { unfold main. rewrite Ha. reflexivity. }
    split; [reflexivity|]. split; [reflexivity|].
    rewrite (assembled_sectors Sample.argv Sample.huge_world a Sample.huge Ha eq_refl).
    reflexivity.
Qed.

(** ** The claims on the sample inputs *)

(** C1 on the fourth example scenario: a service of 1025 bytes gives a
    buffer, and a file, of 2048 bytes. *)
Lemma image_size_witness :
  exists a f,
    assemble (EB := Elf32.reader) Sample.argv Sample.w64_1025 = Ok a /\
    Z.of_nat (length (disk a)) = 2048 /\ disk_size a = 2048 /\
    snd (main (EB := Elf32.reader) Sample.argv Sample.w64_1025) !! "service.img"
      = Some f /\
    Z.of_N (st_size f) = 2048 /\ content f = disk a.
Proof.
  destruct (assemble (EB := Elf32.reader) Sample.argv Sample.w64_1025) as [a|o] eqn:E.
  - destruct (image_size Sample.argv Sample.w64_1025 a (Sample.whole Sample.bootloader)
                (Sample.whole Sample.elf64_1025) E eq_refl eq_refl)
      as (_ & Hl & Hz & _ & Hw).
    destruct (Hw eq_refl) as (f & Hm & Hc & Hf); [vm_compute; discriminate|].
    assert (Hn : img_name a = "service.img").
    { apply assemble_image in E as (_ & _ & _ & _ & _ & _ & _ & _ & Hn & _).
      exact Hn. }
    exists a, f. split; [reflexivity|]. split; [exact Hl|]. split; [exact Hz|].
    split; [|split; [exact Hf | exact Hc]].
    rewrite Hm. cbn [snd]. rewrite Hn. apply lookup_insert_eq.
  - vm_compute in E. discriminate.
Defined.

(** C2 on the same scenario: three sectors of service. *)
Lemma sector_count_field_witness :
  exists a,
    assemble (EB := Elf32.reader) Sample.argv Sample.w64_1025 = Ok a /\
    load 4 bootvar_binary_size (disk a) = Some 3.
Proof.
  destruct (assemble (EB := Elf32.reader) Sample.argv Sample.w64_1025) as [a|o] eqn:E.
  - exists a. split; [reflexivity|].
    destruct (sector_count_field Sample.argv Sample.w64_1025 a
                (Sample.whole Sample.elf64_1025) E eq_refl) as [_ H].
    apply H. reflexivity.
  - vm_compute in E. discriminate.
Defined.

(** C3 on the 64-bit sample, whose entry point 0x100200000 loses its
    bit 32, and on the 32-bit sample of the first example scenario. *)
Lemma entry_point_field_witness :
  (exists a,
     assemble (EB := Elf32.reader) Sample.argv Sample.w64 = Ok a /\
     load 4 bootvar_binary_location (disk a) = Some 0x00200000) /\
  (exists a,
     assemble (EB := Elf32.reader) Sample.argv Sample.w32 = Ok a /\
     load 4 bootvar_binary_location (disk a) = Some 0x00100000).
Proof.
  split.
  - destruct (assemble (EB := Elf32.reader) Sample.argv Sample.w64) as [a|o] eqn:E.
    + exists a. split; [reflexivity|].
      destruct (entry_point_field Sample.argv Sample.w64 a (Sample.whole Sample.elf64)
                  E eq_refl) as (_ & _ & H & _).
      exact (H eq_refl).
    + vm_compute in E. discriminate.
  - destruct (assemble (EB := Elf32.reader) Sample.argv Sample.w32) as [a|o] eqn:E.
    + exists a. split; [reflexivity|].
      destruct (entry_point_field Sample.argv Sample.w32 a (Sample.whole Sample.elf32)
                  E eq_refl) as (_ & H & _).
      exact (H eq_refl).
    + vm_compute in E. discriminate.
Defined.

(** C4 on a service that is a shell script. *)
Lemma no_output_on_failed_validation_witness :
  exists ab,
    main (EB := Elf32.reader) Sample.argv Sample.w_script
    = (Terminate ab, fs Sample.w_script).
Proof.
  refine (proj1 (no_output_on_failed_validation Sample.argv Sample.w_script
           (loaded Sample.argv Sample.w_script (Sample.whole Sample.bootloader)
              (Sample.whole Sample.script)) _ _)).
  - vm_compute. reflexivity.
  - eapply NotExecutable; [vm_compute; reflexivity..|discriminate].
Defined.

(** C5 on a 32-bit service whose checksum does not cancel the sum. *)
Lemma multiboot_invariant_witness :
  exists ab,
    main (EB := Elf32.reader) Sample.argv Sample.w_bad_checksum
    = (Terminate ab, fs Sample.w_bad_checksum).
Proof.
  destruct (multiboot_invariant (EB := Elf32.reader) Sample.argv Sample.w_bad_checksum
     (loaded Sample.argv Sample.w_bad_checksum (Sample.whole Sample.bootloader)
        (Sample.whole Sample.elf32_bad_checksum))
     {| sh_name := 1; sh_type := 1; sh_flags := 2; sh_addr := 0x100000;
        sh_offset := 52; sh_size := 32; sh_link := 0; sh_info := 0;
        sh_addralign := 4; sh_entsize := 0 |}
     MULTIBOOT_HEADER_MAGIC 5 5) as [H _].
  - vm_compute. reflexivity.
  - repeat split; vm_compute; reflexivity.
  - vm_compute. reflexivity.
  - vm_compute. reflexivity.
  - vm_compute. reflexivity.
  - vm_compute. reflexivity.
  - vm_compute. reflexivity.
  - destruct H as (ab & _ & _ & Hm); [right; vm_compute; discriminate|].
    exists ab. exact Hm.
Defined.

(** C6 on the boot loader of 511 bytes of the second example scenario. *)
Lemma boot_sector_size_error_witness :
  main (EB := Elf32.reader) Sample.argv Sample.w_short_bootloader
  = (Exit 666, fs Sample.w_short_bootloader).
Proof.
  apply (boot_sector_size_error Sample.argv Sample.w_short_bootloader
           (Sample.whole Sample.short_bootloader));
    [reflexivity | reflexivity | vm_compute; discriminate].
Defined.

(** C8 on a file system with room for 100 bytes. *)
Lemma short_write_undetected_witness :
  fst (main (EB := Elf32.reader) Sample.argv Sample.w_short_write) = Exit 0.
Proof.
  destruct (assemble (EB := Elf32.reader) Sample.argv Sample.w_short_write)
    as [a|o] eqn:E.
  - destruct (short_write_undetected Sample.argv Sample.w_short_write a E eq_refl)
      as (f & -> & _).
    reflexivity.
  - vm_compute in E. discriminate.
Defined.

(** C9 in test mode, on the first byte after the patched fields. *)
Lemma boot_sector_frame_witness :
  exists a,
    assemble (EB := Elf32.reader) Sample.argv_test Sample.w64 = Ok a /\
    disk a !! 12%nat = Sample.bootloader !! 12%nat.
Proof.
  destruct (assemble (EB := Elf32.reader) Sample.argv_test Sample.w64) as [a|o] eqn:E.
  - exists a. split; [reflexivity|].
    destruct (boot_sector_frame Sample.argv_test Sample.w64 a
                (Sample.whole Sample.bootloader) 12%nat E eq_refl) as (H & _).
    + right. lia.
    + exact H.
  - vm_compute in E. discriminate.
Defined.


(** C7, the claim as it is written fails: of a boot loader of 512 bytes
    only 100 are delivered, and the build ends with status 0 and with an
    image of full size. *)
Lemma partial_read_counterexample :
  fs Sample.w_partial_read !! arg 2 Sample.argv = Some Sample.partial_bootloader /\
  st_size Sample.partial_bootloader = 512%N /\
  gcount Sample.partial_bootloader 512 = 100 /\
  fst (main (EB := Elf32.reader) Sample.argv Sample.w_partial_read) = Exit EXIT_SUCCESS /\
  exists f,
    snd (main (EB := Elf32.reader) Sample.argv Sample.w_partial_read) !! "service.img"
      = Some f /\
    st_size f = 1024%N.
Proof.
  split; [reflexivity|]. split; [reflexivity|]. split; [reflexivity|].
  split; [vm_compute; reflexivity|].
  eexists. split; [vm_compute; reflexivity|reflexivity].
Qed.

(** C8, the claim as it is written fails: the file system takes 100 of
    the 1024 bytes of the image, and the run ends with status 0. *)
Lemma short_write_counterexample :
  fst (main (EB := Elf32.reader) Sample.argv Sample.w_short_write) = Exit EXIT_SUCCESS /\
  exists a f,
    assemble (EB := Elf32.reader) Sample.argv Sample.w_short_write = Ok a /\
    length (disk a) = 1024%nat /\
    snd (main (EB := Elf32.reader) Sample.argv Sample.w_short_write) !! "service.img"
      = Some f /\
    length (content f) = 100%nat.
Proof.
  split; [vm_compute; reflexivity|].
  eexists. eexists. split; [vm_compute; reflexivity|].
  split; [reflexivity|]. split; [vm_compute; reflexivity|reflexivity].
Qed.


(** * Further properties of the program *)

(** ** The name of the image *)

Lemma app_String (a : ascii) (r t : string) :
  String a r +:+ t = String a (r +:+ t).
Proof. reflexivity. Qed.

Lemma app_Empty (t : string) : EmptyString +:+ t = t.
Proof. reflexivity. Qed.

Lemma find_last_of_app_None (c : ascii) (s t : string) :
  find_last_of c t = None -> find_last_of c (s +:+ t) = find_last_of c s.
Proof.
  intros Ht. induction s as [|a r IH].
  - rewrite app_Empty. exact Ht.
  - rewrite app_String. cbn [find_last_of]. now rewrite IH.
Qed.

Lemma find_last_of_app_sep (c : ascii) (dir base : string) :
  find_last_of c base = None ->
  find_last_of c (dir +:+ String c base) = Some (String.length dir).
Proof.
  intros Hb. induction dir as [|a r IH].
  - rewrite app_Empty. cbn [find_last_of String.length].
    now rewrite Hb, Ascii.eqb_refl.
  - rewrite app_String. cbn [find_last_of String.length]. now rewrite IH.
Qed.

Lemma substr_app_sep (c : ascii) (dir base : string) :
  substr (S (String.length dir)) (dir +:+ String c base) = base.
Proof.
  induction dir as [|a r IH].
  - rewrite app_Empty. cbn [String.length substr]. now destruct base.
  - rewrite app_String. cbn [String.length substr]. exact IH.
Qed.

Lemma find_last_of_substr (c : ascii) (s : string) (i : nat) :
  find_last_of c s = Some i -> find_last_of c (substr (S i) s) = None.
Proof.
  revert i. induction s as [|a r IH]; intros i H; [discriminate|].
  cbn [find_last_of] in H.
  destruct (find_last_of c r) as [j|] eqn:Er.
  - injection H as <-. cbn [substr]. now apply IH.
  - destruct (Ascii.eqb a c); [|discriminate]. injection H as <-.
    cbn [substr]. now destruct r.
Qed.

Lemma substr_0 (s : string) : substr 0 s = s.
Proof. now destruct s. Qed.

Lemma length_string_app (s t : string) :
  String.length (s +:+ t) = (String.length s + String.length t)%nat.
Proof.
  induction s as [|a r IH]; [reflexivity|].
  rewrite app_String. cbn [String.length]. now rewrite IH.
Qed.

(** The name of the image has no directory part. *)
Lemma img_name_of_no_slash (p : string) :
  find_last_of "/"%char (img_name_of p) = None.
Proof.
  unfold img_name_of. rewrite find_last_of_app_None by reflexivity.
  destruct (find_last_of "/"%char p) as [i|] eqn:E.
  - now apply find_last_of_substr.
  - now rewrite substr_0.
Qed.

Lemma img_name_of_neq (p : string) : img_name_of p <> p.
Proof.
  intros H. destruct (find_last_of "/"%char p) as [i|] eqn:E.
  - pose proof (img_name_of_no_slash p) as Hn. rewrite H in Hn. congruence.
  - unfold img_name_of in H. rewrite E, substr_0 in H.
    apply (f_equal String.length) in H. rewrite length_string_app in H.
    cbn in H. lia.
Qed.

(** ** Exit statuses and the command line *)

Section ExitCases.
Context `{EB : Elf_binary}.

Lemma main_load_Stop (argv : list string) (w : World) (o : outcome) :
  load_inputs argv w = Stop o -> main argv w = (o, fs w).
Proof.
  intros H. unfold main, assemble. now rewrite H.
Qed.

(** The places where [load_inputs] returns a status. *)
Lemma load_inputs_Exit (argv : list string) (w : World) (z : Z) :
  load_inputs argv w = Stop (Exit z) <->
  (argc argv <= 2 /\ z = EXIT_FAILURE) \/
  (2 < argc argv /\ fs w !! arg 2 argv = None /\ z = errno w (arg 2 argv)) \/
  (2 < argc argv /\
   (exists boot, fs w !! arg 2 argv = Some boot /\ Z.of_N (st_size boot) <> 512) /\
   z = SECT_SIZE_ERR) \/
  (2 < argc argv /\
   (exists boot, fs w !! arg 2 argv = Some boot /\ Z.of_N (st_size boot) = 512) /\
   fs w !! arg 1 argv = None /\ z = errno w (arg 1 argv)).
Proof.
  unfold load_inputs. case_bool_decide as Hc.
  - split.
    + intros [= <-]. left. split; [assumption|reflexivity].
    + intros [(_ & ->)|[(H & _)|[(H & _)|(H & _)]]]; [reflexivity|lia..].
  - rewrite get_bootloader_path_arg by lia. cbn [deref mbind result_bind].
    destruct (fs w !! arg 2 argv) as [boot|] eqn:Eb.
    + case_bool_decide as Hs; unfold SECT_SIZE in Hs.
      * split.
        -- intros [= <-]. right. right. left.
           split; [lia|]. split; [eauto|reflexivity].
        -- intros [(H & _)|[(_ & H & _)|[(_ & _ & ->)|(_ & (b & [= <-] & H) & _)]]];
             [lia|discriminate|reflexivity|contradiction].
      * destruct (fs w !! arg 1 argv) as [binary|] eqn:Es.
        -- split.
           ++ intros H. repeat case_bool_decide; try discriminate.
              destruct (can_allocate w _); discriminate.
           ++ intros [(H & _)|[(_ & H & _)|[(_ & (b & [= <-] & H) & _)|(_ & _ & H & _)]]];
                [lia|discriminate|contradiction|discriminate].
        -- split.
           ++ intros [= <-]. right. right. right.
              split; [lia|]. split; [exists boot; split; [reflexivity|lia]|].
              split; reflexivity.
           ++ intros [(H & _)|[(_ & H & _)|[(_ & (b & [= <-] & H) & _)|(_ & _ & _ & ->)]]];
                [lia|discriminate|lia|reflexivity].
    + split.
      * intros [= <-]. right. left. split; [lia|]. split; reflexivity.
      * intros [(H & _)|[(_ & _ & ->)|[(_ & (b & H & _) & _)|(_ & (b & H & _) & _)]]];
          [lia|reflexivity|discriminate..].
Qed.

End ExitCases.


(** ** The contents of the image *)

Lemma test_loop_other (l : list Z) (d : list byte) (j : nat) :
  (forall i, i ∈ l -> Z.to_nat (512 + i) <> j) ->
  foldl test_step d l !! j = d !! j.
Proof.
  revert d. induction l as [|x l IH]; intros d H; [reflexivity|].
  cbn [foldl]. rewrite IH by (intros i Hi; apply H; now right).
  unfold test_step. apply list_lookup_insert_ne. apply H. now left.
Qed.

Lemma test_loop_length (l : list Z) (d : list byte) :
  length (foldl test_step d l) = length d.
Proof.
  revert d. induction l as [|x l IH]; intros d; [reflexivity|].
  cbn [foldl]. rewrite IH. unfold test_step. apply length_insert.
Qed.

Lemma test_loop_written (l : list Z) (d : list byte) (i : Z) :
  NoDup l -> (forall k, k ∈ l -> 0 <= k) -> i ∈ l ->
  (Z.to_nat (512 + i) < length d)%nat ->
  foldl test_step d l !! Z.to_nat (512 + i) = Some (byte_of_Z (Z.rem i 256)).
Proof.
  revert d. induction l as [|x l IH]; intros d Hnd Hpos Hi Hlen.
  - now apply elem_of_nil in Hi.
  - apply NoDup_cons in Hnd as [Hx Hnd]. cbn [foldl].
    apply elem_of_cons in Hi as [->|Hi].
    + rewrite test_loop_other.
      * unfold test_step. now apply list_lookup_insert_eq.
      * intros k Hk E.
        assert (0 <= k) by (apply Hpos; now right).
        assert (0 <= x) by (apply Hpos; now left).
        assert (k = x) by lia. now subst k.
    + apply IH; try assumption.
      * intros k Hk. apply Hpos. now right.
      * unfold test_step. now rewrite length_insert.
Qed.

Lemma test_fill_pattern (n : Z) (d d' : list byte) (i : Z) :
  test_fill n d = Ok d' -> Z.of_nat (length d) = n ->
  0 <= i < n - 512 ->
  d' !! Z.to_nat (512 + i) = Some (byte_of_Z (i mod 256)).
Proof.
  unfold test_fill. case_bool_decide; [|discriminate].
  intros [= <-] Hlen Hi.
  rewrite <- Z.rem_mod_nonneg by lia.
  apply (test_loop_written (seqZ 0 (n - 512)) d i).
  - apply NoDup_seqZ.
  - intros k Hk. apply elem_of_seqZ in Hk. lia.
  - apply elem_of_seqZ. lia.
  - lia.
Qed.


(** ** Acceptance of a service *)

Section Acceptance.
Context `{EB : Elf_binary}.

(** What a verbose inspection accepts, a quiet one accepts too. *)
Lemma inspect32_quiet S sec d p d' :
  inspect32 true S sec d p = Ok d' -> inspect32 false S sec d p = Ok d'.
Proof.
  unfold inspect32.
  destruct (section_header _ _) as [sh|]; [|discriminate].
  cbn [mbind result_bind].
  set (mb := (p + sp_off (section_data (binary_span S p d) sh))%nat).
  destruct (load 4 mb d) as [m|]; cbn [deref mbind result_bind]; [|discriminate].
  case_bool_decide; [discriminate|].
  destruct (load 4 (mb + 4) d) as [f|]; cbn [deref mbind result_bind]; [|discriminate].
  destruct (load 4 (mb + 8) d) as [c|]; cbn [deref mbind result_bind]; [|discriminate].
  case_bool_decide; [discriminate|].
  destruct (load 20 (mb + 12) d) as [x|]; cbn [deref mbind result_bind]; [|discriminate].
  trivial.
Qed.

Lemma inspect_quiet S sec d d' :
  inspect true S sec d = Ok d' -> inspect false S sec d = Ok d'.
Proof.
  unfold inspect.
  destruct (is_ELF d _) as [[|]|]; cbn [mbind result_bind]; try discriminate.
  destruct (byte_is d _ EI_CLASS ELFCLASS32) as [[|]|];
    cbn [mbind result_bind]; try discriminate.
  - apply inspect32_quiet.
  - trivial.
Qed.

End Acceptance.


Section Extras.
Context `{EB : Elf_binary}.

(** X1: the image is named after the last component of the service's
    path: for a path [dir/base], where [base] has no slash, and for a
    path [base] without a directory, the name is [base.img]. *)
Theorem img_name_of_basename (dir base : string) :
  find_last_of "/"%char base = None ->
  img_name_of (dir +:+ "/" +:+ base) = base +:+ ".img" /\
  img_name_of base = base +:+ ".img".
Proof.
  intros Hb. unfold img_name_of. split.
  - change ("/" +:+ base) with (String "/"%char base).
    rewrite (find_last_of_app_sep "/"%char dir base Hb).
    now rewrite substr_app_sep.
  - now rewrite Hb, substr_0.
Qed.

(** X2: the image is created in the current directory and under a name
    other than the service's path; a run changes no file but the image,
    so that the service binary is never overwritten. *)
Theorem only_the_image_is_written (argv : list string) (w : World) :
  find_last_of "/"%char (img_name_of (arg 1 argv)) = None /\
  img_name_of (arg 1 argv) <> arg 1 argv /\
  (forall p, p <> img_name_of (arg 1 argv) -> snd (main argv w) !! p = fs w !! p) /\
  snd (main argv w) !! arg 1 argv = fs w !! arg 1 argv.
Proof.
  assert (Hf : forall p, p <> img_name_of (arg 1 argv) ->
                         snd (main argv w) !! p = fs w !! p).
  { intros p Hp. unfold main.
    destruct (assemble argv w) as [a|o] eqn:Ha; [|reflexivity].
    apply assemble_image in Ha as (_ & _ & _ & _ & _ & _ & _ & _ & Hn & _).
    unfold write_image. destruct (fopen_w w (img_name a)); [|reflexivity].
    cbn [snd]. rewrite Hn. apply lookup_insert_ne. congruence. }
  split; [apply img_name_of_no_slash|]. split; [apply img_name_of_neq|].
  split; [exact Hf|].
  apply Hf. intros H. symmetry in H. now apply img_name_of_neq in H.
Qed.

(** X3: the statuses other than 0.  [main] returns [z <> 0] in exactly
    four cases, tried in this order: fewer than two arguments
    ([EXIT_FAILURE]); no boot loader at its path (the value of [errno]
    at the [return], which is that of the failed [stat] unless the
    diagnostic printed before the [return] changed it); a boot loader
    whose size is not 512 ([SECT_SIZE_ERR]); no service at its path
    (again the value of [errno] at the [return]). *)
Theorem exit_status_cases (argv : list string) (w : World) (z : Z) :
  z <> EXIT_SUCCESS ->
  (fst (main argv w) = Exit z <->
   (argc argv <= 2 /\ z = EXIT_FAILURE) \/
   (2 < argc argv /\ fs w !! arg 2 argv = None /\ z = errno w (arg 2 argv)) \/
   (2 < argc argv /\
    (exists boot, fs w !! arg 2 argv = Some boot /\ Z.of_N (st_size boot) <> 512) /\
    z = SECT_SIZE_ERR) \/
   (2 < argc argv /\
    (exists boot, fs w !! arg 2 argv = Some boot /\ Z.of_N (st_size boot) = 512) /\
    fs w !! arg 1 argv = None /\ z = errno w (arg 1 argv))).
Proof.
  intros Hz. rewrite <- load_inputs_Exit. split.
  - intros H. now apply main_Exit.
  - intros H. now rewrite (main_load_Stop argv w _ H).
Qed.

(** X4: the status [DISK_SIZE_ERR] is never returned, unless the system
    itself reports it as the [errno] of a failed [stat]: no check of the
    size of the disk is made. *)
Theorem disk_size_err_unused (argv : list string) (w : World) :
  (forall p, errno w p <> DISK_SIZE_ERR) ->
  fst (main argv w) <> Exit DISK_SIZE_ERR.
Proof.
  intros Herr H. apply main_Exit in H; [|discriminate].
  apply load_inputs_Exit in H
    as [(_ & H)|[(_ & _ & H)|[(_ & _ & H)|(_ & _ & _ & H)]]];
    try discriminate; symmetry in H; now apply Herr in H.
Qed.

(** X5: the boot loader has to be given on the command line.  With the
    service alone [main] prints the usage and exits, so the default of
    [get_bootloader_path] under [INCLUDEOS_INSTALL] or [HOME] is never
    used; of the environment only [VERBOSE] is looked at. *)
Theorem bootloader_argument_required (argv : list string) (w : World) :
  (argc argv <= 2 -> main argv w = (Exit EXIT_FAILURE, fs w)) /\
  (forall ge, env_verb (set_getenv ge w) = env_verb w ->
              main argv (set_getenv ge w) = main argv w).
Proof.
  split.
  - intros Hc. apply main_load_Stop. apply load_inputs_Exit. now left.
  - intros ge Hv.
    assert (E : load_inputs argv (set_getenv ge w) = load_inputs argv w).
    { unfold load_inputs. case_bool_decide as Hc; [reflexivity|].
      rewrite !get_bootloader_path_arg by lia.
      unfold verb_of. rewrite Hv. reflexivity. }
    unfold main, assemble. rewrite E.
    destruct (load_inputs argv w ≫= _) as [a|o]; reflexivity.
Qed.

(** X6: in test mode every byte of the image after the first sector is
    the test pattern: the byte at offset [512 + i] is [i mod 256],
    whatever the service holds there. *)
Theorem test_pattern (argv : list string) (w : World) (a : Assembled) (i : Z) :
  assemble argv w = Ok a ->
  test_of argv = true ->
  0 <= i < disk_size a - 512 ->
  disk a !! Z.to_nat (512 + i) = Some (byte_of_Z (i mod 256)).
Proof.
  intros Ha Ht Hi.
  apply assemble_Ok in Ha as (st & d1 & Hst & Hd1 & Hd2 & _ & Hz).
  apply load_inputs_Ok in Hst as (_ & boot & binary & _ & _ & _ & Ho & Est).
  subst st.
  cbn [loaded ld_test ld_verb ld_st_binary ld_binary_sectors ld_disk
       ld_img_size_bytes] in *.
  rewrite Ht in Hd2. rewrite Hz in Hi.
  destruct (inspect_patch _ _ _ _ _ Hd1) as (e & ->).
  apply (test_fill_pattern _ _ _ i Hd2); [|assumption].
  rewrite length_patch, length_load_disk.
  pose proof (img_size_bytes_ceil (Z.of_N (st_size binary)) ltac:(lia)).
  pose proof (ceil_div_nonneg (Z.of_N (st_size binary)) ltac:(lia)). lia.
Qed.

(** X7: outside of test mode the image holds, after the first sector,
    the bytes of the service as they were read, followed by zeros up to
    the end of the last sector: fewer than 512 of them when the service
    was read completely, in which case the bytes are those of the file. *)
Theorem service_embedded (argv : list string) (w : World) (a : Assembled)
    (binary : file) :
  assemble argv w = Ok a ->
  test_of argv = false ->
  fs w !! arg 1 argv = Some binary ->
  let S := Z.of_N (st_size binary) in
  let pad := Z.to_nat (512 * ceil_div S 512 - S) in
  drop 512 (disk a) = service_image binary ++ replicate pad x00 /\
  (pad < 512)%nat /\
  (length (content binary) = N.to_nat (st_size binary) ->
   drop 512 (disk a) = content binary ++ replicate pad x00).
Proof.
  intros Ha Ht Es. cbn zeta.
  apply assemble_Ok in Ha as (st & d1 & Hst & Hd1 & Hd2 & _ & _).
  apply load_inputs_Ok in Hst as (_ & boot & binary' & _ & Hs & Es' & Ho & ->).
  rewrite Es in Es'. injection Es' as <-.
  cbn [loaded ld_test ld_verb ld_st_binary ld_binary_sectors ld_disk
       ld_img_size_bytes] in *.
  rewrite Ht in Hd2. injection Hd2 as <-.
  destruct (inspect_patch _ _ _ _ _ Hd1) as (e & ->).
  set (S := Z.of_N (st_size binary)) in *.
  pose proof (img_size_bytes_ceil S ltac:(lia)) as Hsz.
  pose proof (ceil_div_covers S ltac:(lia)) as Hcov.
  assert (E : drop 512 (patch (binary_sectors_of S mod 2 ^ 32) e
                          (load_disk boot binary (img_size_bytes_of S)))
              = service_image binary ++ replicate (Z.to_nat (512 * ceil_div S 512 - S)) x00).
  { apply list_eq. intros j. rewrite lookup_drop.
    rewrite lookup_patch_outside by lia.
    destruct (decide (512 + j < Z.to_nat (img_size_bytes_of S))%nat) as [Hj|Hj].
    - rewrite lookup_load_disk_image by lia.
      destruct (decide (j < N.to_nat (st_size binary))%nat) as [Hl|Hl].
      + rewrite lookup_app_l by (rewrite length_service_image; lia).
        destruct (lookup_lt_is_Some_2 (service_image binary) j) as [b ->];
          [rewrite length_service_image; lia | reflexivity].
      + rewrite lookup_app_r by (rewrite length_service_image; lia).
        rewrite (proj2 (lookup_ge_None (service_image binary) j))
          by (rewrite length_service_image; lia).
        rewrite length_service_image. symmetry.
        apply lookup_replicate_2. subst S. lia.
    - rewrite (proj2 (lookup_ge_None _ _)) by (rewrite length_load_disk; lia).
      symmetry. apply lookup_ge_None.
      rewrite length_app, length_service_image, length_replicate. subst S. lia. }
  split; [exact E|]. split; [lia|].
  intros Hc. rewrite E. now rewrite service_image_complete.
Qed.

(** X8: the geometry of the image.  Whenever the size of the image is
    computed without overflow of [intmax_t], for a service of [S] bytes
    the image has room for the boot sector and the service, is a whole
    number of sectors, wastes less than one sector, wastes none when [S]
    is a multiple of 512, and is not smaller than the image of any
    smaller service. *)
Theorem image_geometry (n : N) :
  let S := Z.of_N n in
  img_size_bytes_of S <= INTMAX_MAX ->
  S <= INTMAX_MAX /\
  512 + S <= img_size_bytes_of S < 512 + S + 512 /\
  img_size_bytes_of S mod 512 = 0 /\
  (S mod 512 = 0 -> img_size_bytes_of S = 512 + S) /\
  (forall n', (n' <= n)%N -> img_size_bytes_of (Z.of_N n') <= img_size_bytes_of S).
Proof.
  cbn zeta. intros Hb.
  pose proof (img_size_bytes_ceil (Z.of_N n) ltac:(lia)) as Hsz.
  pose proof (ceil_div_covers (Z.of_N n) ltac:(lia)) as Hcov.
  split; [lia|]. split; [lia|]. split.
  - rewrite Hsz, Z.mul_comm. apply Z.mod_mul. lia.
  - split.
    + intros Hm. rewrite Hsz. unfold ceil_div in *. Z.div_mod_to_equations. lia.
    + intros n' Hle. rewrite Hsz, (img_size_bytes_ceil (Z.of_N n')) by lia.
      unfold ceil_div. Z.div_mod_to_equations. lia.
Qed.


(** X10: for a 32-bit service the two multiboot equations are all that
    is asked of the header.  With the [.multiboot] section found, the
    magic in its first field and flags and checksum that cancel it
    modulo 2^32, the inspection succeeds and patches the sector count
    and the entry point of [Elf_binary]; the five address fields are not
    looked at, but in verbose mode they are read and have to lie inside
    the buffer. *)
Theorem elf32_accepted (verb : bool) (S sec : Z) (d : list byte)
    (sh : Elf32_Shdr) (f c : Z) :
  has_magic d 512 -> d !! 516%nat = Some ELFCLASS32 ->
  section_header (binary_span S 512 d) ".multiboot" = Some sh ->
  load 4 (multiboot_ptr S d sh) d = Some MULTIBOOT_HEADER_MAGIC ->
  load 4 (multiboot_ptr S d sh + 4) d = Some f ->
  load 4 (multiboot_ptr S d sh + 8) d = Some c ->
  (MULTIBOOT_HEADER_MAGIC + f + c) mod 2 ^ 32 = 0 ->
  (verb = true -> (multiboot_ptr S d sh + 32 <= length d)%nat) ->
  inspect verb S sec d = Ok (patch sec (entry (binary_span S 512 d)) d).
Proof.
  intros Hm Hc Hsh Hl Hf Hk Hsum Hv.
  rewrite inspect_class32 by assumption.
  unfold inspect32, multiboot_ptr in *.
  rewrite Hsh. cbn [mbind result_bind]. rewrite Hl. cbn [deref mbind result_bind].
  rewrite bool_decide_eq_false_2 by tauto.
  rewrite Hf. cbn [deref mbind result_bind]. rewrite Hk. cbn [deref mbind result_bind].
  rewrite to_uint32_sum, bool_decide_eq_false_2 by tauto.
  assert (E : (if verb
               then deref (load 20 (512 + sp_off (section_data (binary_span S 512 d) sh) + 12) d)
               else Ok 0) ≫= (fun _ : Z =>
               Ok (store 4 bootvar_binary_location
                     (entry (binary_span S 512 (store 4 bootvar_binary_size sec d)))
                     (store 4 bootvar_binary_size sec d)))
              = Ok (store 4 bootvar_binary_location
                     (entry (binary_span S 512 (store 4 bootvar_binary_size sec d)))
                     (store 4 bootvar_binary_size sec d))).
  { destruct verb; [|reflexivity].
    rewrite load_is_Some by (specialize (Hv eq_refl); lia). reflexivity. }
  rewrite E. unfold patch, bootvar_binary_size.
  rewrite binary_span_store by lia. reflexivity.
Qed.

(** X11: verbosity does not change a successful build.  A run that is
    verbose and ends with status 0 has the same result under any other
    environment, verbose or not. *)
Theorem verbose_build_is_the_build (argv : list string) (w : World)
    (ge : string -> option string) :
  verb_of w argv = true ->
  fst (main argv w) = Exit EXIT_SUCCESS ->
  main argv (set_getenv ge w) = main argv w.
Proof.
  intros Hv H. unfold main, assemble, load_inputs in *.
  case_bool_decide as Hc; [reflexivity|].
  rewrite !get_bootloader_path_arg in * by lia.
  cbn [deref mbind result_bind set_getenv fs errno] in *.
  destruct (fs w !! arg 2 argv) as [boot|]; [|reflexivity].
  case_bool_decide as Hs; [reflexivity|].
  destruct (fs w !! arg 1 argv) as [binary|]; [|reflexivity].
  case_bool_decide as Ho; [reflexivity|].
  case_bool_decide as Ha; [reflexivity|].
  cbn [can_allocate set_getenv] in *.
  destruct (can_allocate w _); cbn [negb] in *; [|reflexivity].
  cbn [deref mbind result_bind ld_verb ld_st_binary ld_binary_sectors ld_disk
       ld_test ld_img_size_bytes ld_img_name] in *.
  rewrite Hv in *.
  destruct (inspect true _ _ _) as [d1|o] eqn:Hi.
  - destruct (verb_of (set_getenv ge w) argv).
    + rewrite Hi. reflexivity.
    + rewrite (inspect_quiet _ _ _ _ Hi). reflexivity.
  - cbn in H. subst o. now apply no_exit_inspect in Hi.
Qed.

(** X12: only the first four words of the command line count.  The
    arguments after the third are ignored, so that [-test] and [-v] have
    an effect only as the third argument. *)
Theorem extra_arguments_ignored (argv : list string) (w : World) :
  main (take 4 argv) w = main argv w.
Proof.
  destruct (decide (length argv <= 4)%nat) as [Hl|Hl];
    [now rewrite take_ge by lia|].
  assert (Hlen : length (take 4 argv) = 4%nat) by (rewrite length_take; lia).
  assert (Harg : forall k, (k < 4)%nat -> arg k (take 4 argv) = arg k argv).
  { intros k Hk. unfold arg. now rewrite lookup_take_lt. }
  assert (Hopt : forall o, opt_is o (take 4 argv) = opt_is o argv).
  { intros o. unfold opt_is, argc. rewrite Hlen, Harg by lia.
    rewrite (bool_decide_eq_true_2 (3 < Z.of_nat 4)) by lia.
    rewrite (bool_decide_eq_true_2 (3 < Z.of_nat (length argv))) by lia.
    reflexivity. }
  assert (E : load_inputs (take 4 argv) w = load_inputs argv w).
  { unfold load_inputs.
    rewrite (bool_decide_eq_false_2 (argc (take 4 argv) <= 2)) by (unfold argc; lia).
    rewrite (bool_decide_eq_false_2 (argc argv <= 2)) by (unfold argc; lia).
    rewrite !get_bootloader_path_arg by (unfold argc; lia).
    unfold test_of, verb_of. rewrite !Hopt, !Harg by lia. reflexivity. }
  unfold main, assemble. now rewrite E.
Qed.

End Extras.

(** X1 on the sample command line. *)
Lemma img_name_of_basename_witness :
  img_name_of "build/service" = "service.img".
Proof.
  exact (proj1 (img_name_of_basename "build" "service" eq_refl)).
Defined.


(** X3 on a command line whose boot loader does not exist. *)
Lemma exit_status_cases_witness :
  fst (main (EB := Elf32.reader) Sample.argv Sample.w_no_bootloader) = Exit 2.
Proof.
  apply (exit_status_cases Sample.argv Sample.w_no_bootloader 2); [discriminate|].
  right. left. split; [reflexivity|]. split; reflexivity.
Defined.

(** X4 on the 32-bit sample. *)
Lemma disk_size_err_unused_witness :
  fst (main (EB := Elf32.reader) Sample.argv Sample.w32) <> Exit DISK_SIZE_ERR.
Proof.
  apply (disk_size_err_unused Sample.argv Sample.w32). intros p. discriminate.
Defined.

(** X5 on an installation whose boot loader exists. *)
Lemma bootloader_argument_required_witness :
  get_bootloader_path Sample.w_installed Sample.argv_service_only
    = Some "/usr/local/includeos/bootloader" /\
  main (EB := Elf32.reader) Sample.argv_service_only Sample.w_installed
    = (Exit EXIT_FAILURE, fs Sample.w_installed).
Proof.
  split; [reflexivity|].
  apply (proj1 (bootloader_argument_required Sample.argv_service_only Sample.w_installed)).
  discriminate.
Defined.


(** X6 on the 64-bit sample in test mode: the byte at offset 812. *)
Lemma test_pattern_witness :
  exists a,
    assemble (EB := Elf32.reader) Sample.argv_test Sample.w64 = Ok a /\
    disk a !! 812%nat = Some x2c.
Proof.
  destruct (assemble (EB := Elf32.reader) Sample.argv_test Sample.w64) as [a|o] eqn:E.
  - exists a. split; [reflexivity|].
    assert (Hz : disk_size a = 1024).
    { pose proof E as E'.
      apply assemble_image in E' as (boot & binary & d1 & _ & _ & _ & Es & _ & _ & Hz & _).
      injection Es as <-. exact Hz. }
    apply (test_pattern Sample.argv_test Sample.w64 a 300 E eq_refl).
    rewrite Hz. lia.
  - vm_compute in E. discriminate.
Defined.

(** X7 on the 64-bit sample of 64 bytes: 448 zeros follow it. *)
Lemma service_embedded_witness :
  exists a,
    assemble (EB := Elf32.reader) Sample.argv Sample.w64 = Ok a /\
    drop 512 (disk a) = Sample.elf64 ++ replicate 448 x00.
Proof.
  destruct (assemble (EB := Elf32.reader) Sample.argv Sample.w64) as [a|o] eqn:E.
  - exists a. split; [reflexivity|].
    destruct (service_embedded Sample.argv Sample.w64 a (Sample.whole Sample.elf64)
                E eq_refl eq_refl) as (_ & _ & H).
    exact (H eq_refl).
  - vm_compute in E. discriminate.
Defined.



(** X10 on the loaded disk of the 32-bit sample, in verbose mode. *)
Lemma elf32_accepted_witness :
  let d := load_disk (Sample.whole Sample.bootloader) (Sample.whole Sample.elf32) 1024 in
  inspect (EB := Elf32.reader) true 228 1 d
  = Ok (patch 1 (@entry Elf32.reader (binary_span 228 512 d)) d).
Proof.
  cbn zeta.
  apply (elf32_accepted (EB := Elf32.reader) true 228 1
           (load_disk (Sample.whole Sample.bootloader) (Sample.whole Sample.elf32) 1024)
           {| sh_name := 1; sh_type := 1; sh_flags := 2; sh_addr := 0x100000;
              sh_offset := 52; sh_size := 32; sh_link := 0; sh_info := 0;
              sh_addralign := 4; sh_entsize := 0 |}
           0 (2 ^ 32 - MULTIBOOT_HEADER_MAGIC)).
  - repeat split; vm_compute; reflexivity.
  - vm_compute. reflexivity.
  - vm_compute. reflexivity.
  - vm_compute. reflexivity.
  - vm_compute. reflexivity.
  - vm_compute. reflexivity.
  - vm_compute. reflexivity.
  - intros _. apply Nat.leb_le. vm_compute. reflexivity.
Defined.

(** X11 on the 32-bit sample with [VERBOSE] set, against the quiet run. *)
Lemma verbose_build_is_the_build_witness :
  main (EB := Elf32.reader) Sample.argv Sample.w32
  = main (EB := Elf32.reader) Sample.argv Sample.w32_verbose.
Proof.
  apply (verbose_build_is_the_build Sample.argv Sample.w32_verbose (fun _ => None)).
  - reflexivity.
  - vm_compute. reflexivity.
Defined.

(** X8 on a service of 1025 bytes: an image of four sectors. *)
Lemma image_geometry_witness :
  img_size_bytes_of 1025 = 2048 /\ img_size_bytes_of 1024 <= img_size_bytes_of 1025.
Proof.
  destruct (image_geometry 1025) as (_ & _ & _ & _ & Hm); [vm_compute; discriminate|].
  split; [reflexivity|]. apply (Hm 1024%N). lia.
Defined.

(** C1, the claim as it is written fails for the file: with a boot
    loader of 512 bytes and a valid service the buffer has 1024 bytes,
    but on a file system that takes 100 bytes the file written has 100,
    and the run ends with status 0. *)
Lemma image_size_counterexample :
  exists a f,
    fs Sample.w_short_write !! arg 2 Sample.argv = Some (Sample.whole Sample.bootloader) /\
    st_size (Sample.whole Sample.bootloader) = 512%N /\
    fs Sample.w_short_write !! arg 1 Sample.argv = Some (Sample.whole Sample.elf32) /\
    assemble (EB := Elf32.reader) Sample.argv Sample.w_short_write = Ok a /\
    512 * (1 + ceil_div (Z.of_N (st_size (Sample.whole Sample.elf32))) 512) = 1024 /\
    main (EB := Elf32.reader) Sample.argv Sample.w_short_write
      = (Exit EXIT_SUCCESS, <["service.img" := f]> (fs Sample.w_short_write)) /\
    length (data f) = 100%nat /\ st_size f = 100%N.
Proof.
  eexists. eexists.
  split; [reflexivity|]. split; [reflexivity|]. split; [reflexivity|].
  split; [vm_compute; reflexivity|]. split; [reflexivity|].
  split; [vm_compute; reflexivity|]. split; reflexivity.
Qed.

(** C3, the claim as it is written fails: of a 64-bit service whose
    entry point is 0x100200000 a read delivers the first 20 bytes; the
    build ends with status 0 and the field at offset 8 holds 0, not the
    low 32 bits 0x00200000 of the entry point in the file. *)
Lemma entry_point_field_counterexample :
  exists a,
    fs Sample.w_partial_service !! arg 1 Sample.argv = Some Sample.partial_service /\
    data Sample.partial_service !! EI_CLASS = Some ELFCLASS64 /\
    Elf64_e_entry (data Sample.partial_service) mod 2 ^ 32 = 0x00200000 /\
    gcount Sample.partial_service 64 = 20 /\
    assemble (EB := Elf32.reader) Sample.argv Sample.w_partial_service = Ok a /\
    fst (main (EB := Elf32.reader) Sample.argv Sample.w_partial_service)
      = Exit EXIT_SUCCESS /\
    load 4 bootvar_binary_location (disk a) = Some 0.
Proof.
  eexists.
  split; [reflexivity|]. split; [reflexivity|]. split; [reflexivity|].
  split; [reflexivity|]. split; [vm_compute; reflexivity|].
  split; [vm_compute; reflexivity|]. reflexivity.
Qed.

(** C9, the claim as it is written fails: of a boot loader of 512 bytes,
    whose byte at offset 200 is 0xc9, a read delivers the first 100; the
    build ends with status 0 and the byte at offset 200 of the image is
    zero. *)
Lemma boot_sector_frame_counterexample :
  exists a,
    fs Sample.w_partial_read !! arg 2 Sample.argv = Some Sample.partial_bootloader /\
    st_size Sample.partial_bootloader = 512%N /\
    data Sample.partial_bootloader !! 200%nat = Some xc9 /\
    gcount Sample.partial_bootloader 512 = 100 /\
    assemble (EB := Elf32.reader) Sample.argv Sample.w_partial_read = Ok a /\
    fst (main (EB := Elf32.reader) Sample.argv Sample.w_partial_read)
      = Exit EXIT_SUCCESS /\
    disk a !! 200%nat = Some x00.
Proof.
  eexists.
  split; [reflexivity|]. split; [reflexivity|]. split; [reflexivity|].
  split; [reflexivity|]. split; [vm_compute; reflexivity|].
  split; [vm_compute; reflexivity|]. reflexivity.
Qed.
